(** * musa.tags.tagparser: tag metadata reader and writer classes

    A shallow embedding of [src/musa/tags/tagparser.py] (Python 2):
    the [TagParser] base class, [TrackAlbumart], [TrackNumberingTag]
    and the [Tags] loader with its per-path instance cache.

    Python objects that are mutated in place are modelled by explicit
    state passing; exceptions by a result type.  Methods of [TagParser]
    live in a small state-and-exception monad over the parser object and
    the trace of external effects (native saves, printing). *)

From Stdlib Require Import ZArith String Ascii DecimalString.
From stdpp Require Import base decidable option list gmap strings.

Open Scope string_scope.
Open Scope list_scope.

Set Warnings "-register-all".

(** ** Python values, exceptions and results *)

(** [musa.tags.albumart.AlbumArt] is imported, not defined, by the module.
    Only its [is_loaded] attribute is read here; [art_image] stands for
    the image it carries. *)
Record AlbumArt := mkAlbumArt {
  is_loaded : bool;
  art_image : string;
}.

(** The Python values that reach the methods below.  [PStr] is a Python 2
    byte string, [PUnicode] a unicode string, [PInt] a plain int.  Floats,
    longs and instances of other classes are outside the model. *)
Inductive pyobj :=
| PNone
| PInt (n : Z)
| PStr (b : string)
| PUnicode (u : string)
| PList (l : list pyobj)
| PDict (items : list (pyobj * pyobj))
| PAlbumArt (a : AlbumArt).

Inductive exn :=
| TagError (msg : string)
| AlbumArtError (msg : string)
| KeyError (fields : list string)   (* 'No such tag: %s' % fields *)
| AttributeError (msg : string)
| TypeError (msg : string)
| ValueError (msg : string)
| IndexError (msg : string)
| NotImplementedError (msg : string)
| IOError (msg : string).

Inductive result (A : Type) :=
| Ok (a : A)
| Raise (e : exn).
Arguments Ok {A} a.
Arguments Raise {A} e.

Definition result_map {A B} (f : A → B) (r : result A) : result B :=
  match r with
  | Ok a => Ok (f a)
  | Raise e => Raise e
  end.

(** Builtins of the interpreter that the module calls and that are not
    modelled bit for bit: [unicode(b,'utf-8')] on a byte string (the
    message of the [UnicodeDecodeError] on the left) and [int(s)] on a
    string ([None] when it raises [ValueError]). *)
Class Builtins := {
  unicode_utf8 : string → string + string;
  int_of_text : string → option Z;
}.

(** [STANDARD_TAG_ORDER] of [musa.tags.constants], imported by the module. *)
Class TagConstants := {
  STANDARD_TAG_ORDER : list string;
}.

(** ['%d' % n] *)
Definition format_d (n : Z) : string := NilZero.string_of_int (Z.to_int n).

(** ** The native tag entry and the tag parser object *)

(** An element stored in a native field. *)
Inductive value :=
| VUnicode (u : string)
| VInt (n : Z)
| VStr (b : string).

(** What a native field holds: one element or a list of them. *)
Inductive native :=
| One (v : value)
| Many (vs : list value).

(** The native entry: fields in the order [entry.keys()] lists them. *)
Definition Entry := list (string * native).

Definition entry_keys (e : Entry) : list string := e.*1.

Fixpoint entry_get (e : Entry) (field : string) : option native :=
  match e with
  | [] => None
  | (k, v) :: e' => if decide (k = field) then Some v else entry_get e' field
  end.

(** [del entry[field]] *)
Definition entry_del (e : Entry) (field : string) : Entry :=
  List.filter (λ kv, negb (bool_decide (kv.1 = field))) e.

(** ** class TrackAlbumart *)

Module TrackAlbumart.

(** [self.modified] and [self.albumart]; [self.track] is the parser
    that holds the object. *)
Record t := mk {
  modified : bool;
  albumart : option AlbumArt;
}.

Definition __init__ : t := mk false None.

Definition defined (self : t) : bool :=
  match albumart self with
  | None => false
  | Some _ => true
  end.

Definition import_albumart (a : pyobj) (self : t) : result unit * t :=
  match a with
  | PAlbumArt art =>
      if negb (is_loaded art)
      then (Raise (TagError "Albumart to import is not loaded with image."), self)
      else (Ok tt, mk (modified self) (Some art))
  | _ => (Raise (TagError "Albumart must be AlbumArt instance"), self)
  end.

End TrackAlbumart.

(** ** class TagParser *)

Module TagParser.

(** The parser object after the child class has loaded [self.entry].
    [tag_map] is the dictionary in the order [items()] yields it; a
    value can be [None] ("name is internal reference").  [albumart] is
    the attribute child classes with artwork support assign. *)
Record t := mk {
  path : string;
  tag_map : list (string * option (list string));
  supports_albumart : bool;
  entry : Entry;
  modified : bool;
  albumart : option TrackAlbumart.t;
}.

Definition set_entry (e : Entry) (p : t) : t :=
  mk (path p) (tag_map p) (supports_albumart p) e (modified p) (albumart p).
Definition set_modified (b : bool) (p : t) : t :=
  mk (path p) (tag_map p) (supports_albumart p) (entry p) b (albumart p).
Definition set_albumart (a : option TrackAlbumart.t) (p : t) : t :=
  mk (path p) (tag_map p) (supports_albumart p) (entry p) (modified p) a.

(** External effects a method performs, in order. *)
Inductive event :=
| EntrySave (file : string) (e : Entry)     (* self.entry.save() *)
| Print (k v : pyobj).                      (* print k,v *)

(** *** The monad of parser methods: the object, the trace of effects,
    and a result or an exception. *)

Definition St : Type := t * list event.

Definition M (A : Type) : Type := St → result A * St.

Definition ret {A} (a : A) : M A := λ s, (Ok a, s).
Definition raise {A} (e : exn) : M A := λ s, (Raise e, s).
Definition bind {A B} (m : M A) (k : A → M B) : M B :=
  λ s, match m s with
       | (Ok a, s') => k a s'
       | (Raise e, s') => (Raise e, s')
       end.
Definition gets {A} (f : t → A) : M A := λ s, (Ok (f s.1), s).
Definition modify (f : t → t) : M unit := λ s, (Ok tt, (f s.1, s.2)).
Definition emit (ev : event) : M unit := λ s, (Ok tt, (s.1, s.2 ++ [ev])).
(** [try: m] with an [except] clause for the exceptions [h] maps to a
    handler. *)
Definition catch {A} (m : M A) (h : exn → option (M A)) : M A :=
  λ s, match m s with
       | (Ok a, s') => (Ok a, s')
       | (Raise e, s') =>
           match h e with
           | Some k => k s'
           | None => (Raise e, s')
           end
       end.

Declare Scope py_scope.
Delimit Scope py_scope with py.
Notation "x <- c ;; k" := (bind c (λ x, k))
  (at level 100, c at next level, right associativity) : py_scope.
Notation "c ;;; k" := (bind c (λ _, k))
  (at level 100, right associativity) : py_scope.
Open Scope py_scope.

(** [for x in l: body x] *)
Fixpoint for_each {A} (l : list A) (body : A → M unit) : M unit :=
  match l with
  | [] => ret tt
  | x :: l' => body x ;;; for_each l' body
  end.

(** [[f x for x in l]] *)
Fixpoint comprehension {A B} (f : A → M B) (l : list A) : M (list B) :=
  match l with
  | [] => ret []
  | x :: l' => y <- f x ;; ys <- comprehension f l' ;; ret (y :: ys)
  end.

(** [for x in fields] when [fields] may be [None]. *)
Definition iter (fields : option (list string)) : M (list string) :=
  match fields with
  | Some l => ret l
  | None => raise (TypeError "'NoneType' object is not iterable")
  end.

(** What a child class supplies: [set_tag], which the base class leaves
    unimplemented, and the native entry's own [save] ([None] when the
    write succeeds). *)
Class Codec := {
  set_tag : pyobj → pyobj → M unit;
  entry_save : string → Entry → option exn;
}.

Section methods.
Context {builtins : Builtins} {constants : TagConstants} {codec : Codec}.

Fixpoint tag2fields_loop (items : list (string * option (list string)))
    (tag : string) : option (list string) :=
  match items with
  | [] => Some [tag]
  | (name, tags) :: items' =>
      if decide (tag = name) then tags else tag2fields_loop items' tag
  end.

Definition __tag2fields__ (tag : string) : M (option (list string)) :=
  tm <- gets tag_map ;; ret (tag2fields_loop tm tag).

Fixpoint field2tag_loop (items : list (string * option (list string)))
    (field : string) : string :=
  match items with
  | [] => field
  | (name, None) :: items' => field2tag_loop items' field
  | (name, Some tags) :: items' =>
      if decide (field ∈ tags) then name else field2tag_loop items' field
  end.

Definition __field2tag__ (field : string) : M string :=
  tm <- gets tag_map ;; ret (field2tag_loop tm field).

(** The inner loop of [__getitem__]: coerce each element to unicode. *)
Fixpoint getitem_values (field : string) (tag : list value)
    (values : list string) : M (list string) :=
  match tag with
  | [] => ret values
  | v :: tag' =>
      value <- match v with
               | VUnicode u => ret u
               | VInt n => ret (format_d n)
               | VStr b =>
                   match unicode_utf8 b with
                   | inr u => ret u
                   | inl emsg =>
                       p <- gets path ;;
                       raise (TagError ("Error decoding " +:+ p +:+ " tag "
                                        +:+ field +:+ ": " +:+ emsg))
                   end
               end ;;
      getitem_values field tag' (values ++ [value])
  end.

(** The outer loop; [all] is the whole field list, for the error. *)
Fixpoint getitem_fields (all fields : list string) : M (list string) :=
  match fields with
  | [] => raise (KeyError all)
  | field :: fields' =>
      e <- gets entry ;;
      match entry_get e field with
      | None => getitem_fields all fields'
      | Some tag =>
          getitem_values field
            (match tag with Many vs => vs | One v => [v] end) []
      end
  end.

Definition __getitem__ (item : string) : M (list string) :=
  fields <- __tag2fields__ item ;;
  fs <- iter fields ;;
  getitem_fields fs fs.

(** [self.albumart]: the attribute when a child assigned it, else
    [__getattr__], which reads the tag of that name; the list it
    finds has no [import_albumart]. *)
Definition getattr_albumart : M TrackAlbumart.t :=
  a <- gets albumart ;;
  match a with
  | Some art => ret art
  | None =>
      found <- catch (v <- __getitem__ "albumart" ;; ret (Some v))
                 (λ e, match e with
                       | KeyError _ => Some (ret None)
                       | _ => None
                       end) ;;
      match found with
      | Some _ =>
          raise (AttributeError
                   "'list' object has no attribute 'import_albumart'")
      | None =>
          raise (AttributeError "No such TagParser attribute: albumart")
      end
  end.

(** The [try] block of [__setitem__]:
    [self.albumart.import_albumart(value)], with [AlbumArtError]
    turned into [TagError]. *)
Definition setitem_import (value : pyobj) : M unit :=
  catch (art <- getattr_albumart ;;
         let r := TrackAlbumart.import_albumart value art in
         modify (set_albumart (Some r.2)) ;;;
         match r.1 with
         | Ok _ => ret tt
         | Raise e => raise e
         end)
    (λ e, match e with
          | AlbumArtError emsg =>
              Some (raise (TagError ("Error setting albumart: " +:+ emsg)))
          | _ => None
          end).

Definition __setitem__ (item value : pyobj) : M unit :=
  match item with
  | PAlbumArt _ => setitem_import value
  | _ => ret tt
  end ;;;
  set_tag item value.

(** The body of the loop of [__delitem__]. *)
Definition delitem_body (tag : string) : M unit :=
  e <- gets entry ;;
  if decide (tag ∈ entry_keys e)
  then modify (λ p, set_entry (entry_del (entry p) tag) p) ;;;
       modify (set_modified true)
  else ret tt.

Definition __delitem__ (item : string) : M unit :=
  fields <- __tag2fields__ item ;;
  fs <- iter fields ;;
  for_each fs delitem_body.

Definition __flatten_tag__ (tag : string) : M (option string) :=
  value <- catch (v <- __getitem__ tag ;; ret (Some v))
             (λ e, match e with
                   | KeyError _ => Some (ret None)
                   | _ => None
                   end) ;;
  match value with
  | None => ret None
  | Some [] => ret None
  | Some (v0 :: _) => ret (Some v0)
  end.

Fixpoint has_key_loop (keys : list string) : M bool :=
  match keys with
  | [] => ret false
  | k :: keys' =>
      e <- gets entry ;;
      if decide (k ∈ entry_keys e) then ret true else has_key_loop keys'
  end.

Definition has_key (key : string) : M bool :=
  keys <- __tag2fields__ key ;;
  ks <- iter keys ;;
  has_key_loop ks.

Definition get_tag (item : string) : M string :=
  present <- has_key item ;;
  if negb present then raise (TagError ("No such tag: " +:+ item))
  else
    value <- __flatten_tag__ item ;;
    match value with
    | None => raise (TagError ("No such string tag: " +:+ item))
    | Some v => ret v
    end.

(** The two loops of [sort_keys], appending to [values]. *)
Fixpoint sort_keys_standard (order keys values : list string) : list string :=
  match order with
  | [] => values
  | k :: order' =>
      sort_keys_standard order' keys
        (if decide (k ∈ keys) then values ++ [k] else values)
  end.

Fixpoint sort_keys_other (keys values : list string) : list string :=
  match keys with
  | [] => values
  | k :: keys' =>
      sort_keys_other keys'
        (if decide (k ∉ STANDARD_TAG_ORDER) then values ++ [k] else values)
  end.

Definition sort_keys (keys : list string) : list string :=
  sort_keys_other keys (sort_keys_standard STANDARD_TAG_ORDER keys []).

Definition keys : M (list string) :=
  e <- gets entry ;;
  ks <- comprehension __field2tag__ (entry_keys e) ;;
  ret (sort_keys ks).

Fixpoint items_loop (ks : list string) (tags : list (string * string))
    : M (list (string * string)) :=
  match ks with
  | [] => ret tags
  | tag :: ks' =>
      value <- __flatten_tag__ tag ;;
      match value with
      | None => items_loop ks' tags
      | Some v => items_loop ks' (tags ++ [(tag, v)])
      end
  end.

Definition items : M (list (string * string)) :=
  ks <- keys ;; items_loop ks [].

Fixpoint values_loop (ks : list string) (values : list string)
    : M (list string) :=
  match ks with
  | [] => ret values
  | tag :: ks' =>
      value <- __flatten_tag__ tag ;;
      match value with
      | None => values_loop ks' values
      | Some v => values_loop ks' (values ++ [v])
      end
  end.

Definition values : M (list string) :=
  ks <- keys ;; values_loop ks [].

Definition update_tags (data : pyobj) : M bool :=
  match data with
  | PDict kvs =>
      for_each kvs (λ kv, emit (Print kv.1 kv.2) ;;; set_tag kv.1 kv.2) ;;;
      gets modified
  | _ => raise (TagError "Updated tags must be a dictionary instance")
  end.

Definition save : M unit :=
  m <- gets modified ;;
  if negb m then ret tt
  else
    p <- gets path ;;
    e <- gets entry ;;
    emit (EntrySave p e) ;;;
    match entry_save p e with
    | None => ret tt
    | Some err => raise err
    end.

(** [__getattr__], reached for an attribute the object does not have:
    the tag of that name, [AttributeError] when there is none. *)
Definition __getattr__ (attr : string) : M (list string) :=
  catch (__getitem__ attr)
    (λ e, match e with
          | KeyError _ =>
              Some (raise (AttributeError
                             ("No such TagParser attribute: " +:+ attr)))
          | _ => None
          end).

(** The property [get_albumart].  [hasattr] answers [False] on any
    exception.  Without an assigned [albumart] attribute both [hasattr]
    and the final read go through [__getattr__], which yields the values
    of a tag named [albumart]. *)
Definition get_albumart : M (option (TrackAlbumart.t + list string)) :=
  sup <- gets supports_albumart ;;
  if negb sup then ret None
  else
    a <- gets albumart ;;
    match a with
    | Some art => ret (Some (inl art))
    | None =>
        has <- catch (_ <- __getattr__ "albumart" ;; ret true)
                 (λ _, Some (ret false)) ;;
        if negb has then ret None
        else v <- __getattr__ "albumart" ;; ret (Some (inr v))
    end.

End methods.

(** The base class itself: [set_tag] raises [NotImplementedError]. *)
Definition base_set_tag (item value : pyobj) : M unit :=
  raise (NotImplementedError "Must implement set_tag in child").

End TagParser.

(** ** class TrackNumberingTag *)

Module TrackNumberingTag.

(** The instance dictionary: the class stores everything, [f_value]
    and [f_total] included, through [object.__setattr__]. *)
Abbreviation t := (gmap string pyobj).

Section methods.
Context {builtins : Builtins}.

(** A dictionary key as an attribute name: a byte or unicode string. *)
Definition attribute_name (k : pyobj) : option string :=
  match k with
  | PStr s | PUnicode s => Some s
  | _ => None
  end.

(** The instance dictionary that a Python dictionary becomes when it is
    assigned to [__dict__].  Entries whose key is not a string name no
    attribute and are left out. *)
Definition instance_dict (kvs : list (pyobj * pyobj)) : t :=
  list_to_map
    (omap (λ kv, match attribute_name kv.1 with
                 | Some k => Some (k, kv.2)
                 | None => None
                 end) kvs).

(** [object.__setattr__(self, attr, value)] on an instance of the class.
    Three names are data descriptors of the type and do not go to the
    instance dictionary: [__dict__] replaces the whole dictionary and
    wants a dictionary; [__class__] wants a class, which no value of the
    model is; [__weakref__] is not writable.  Every other name is stored
    in the instance dictionary. *)
Definition object_setattr (attr : string) (value : pyobj) (self : t)
    : result unit * t :=
  if decide (attr = "__dict__") then
    match value with
    | PDict kvs => (Ok tt, instance_dict kvs)
    | _ => (Raise (TypeError "__dict__ must be set to a dictionary"), self)
    end
  else if decide (attr = "__class__") then
    (Raise (TypeError "__class__ must be set to a class"), self)
  else if decide (attr = "__weakref__") then
    (Raise (AttributeError "attribute '__weakref__' is not writable"), self)
  else (Ok tt, <[attr := value]> self).

(** [int(value)] for the values of the model. *)
Definition int (value : pyobj) : result Z :=
  match value with
  | PInt n => Ok n
  | PStr s | PUnicode s =>
      match int_of_text s with
      | Some n => Ok n
      | None => Raise (ValueError "invalid literal for int() with base 10")
      end
  | PNone | PList _ | PDict _ | PAlbumArt _ =>
      Raise (TypeError "int() argument must be a string or a number")
  end.

Definition __setattr__ (attr : string) (value : pyobj) (self : t)
    : result unit * t :=
  if decide (attr ∈ ["value"; "total"]) then
    match (match value with
           | PList [] => Raise (IndexError "list index out of range")
           | PList (v0 :: _) => Ok v0
           | _ => Ok value
           end) with
    | Raise e => (Raise e, self)
    | Ok value =>
        match (match value with
               | PNone => Ok PNone
               | _ => result_map PInt (int value)
               end) with
        | Raise (ValueError _) | Raise (TypeError _) =>
            (Raise (TagError "TrackNumberingTag values must be integers"), self)
        | Raise e => (Raise e, self)
        | Ok value =>
            let self := if decide (attr = "value")
                        then <["f_value" := value]> self else self in
            let self := if decide (attr = "total")
                        then <["f_total" := value]> self else self in
            (Ok tt, self)
        end
    end
  else object_setattr attr value self.

Definition __init__ (track : pyobj) (tag : string) : t :=
  <["f_total" := PNone]> (<["f_value" := PNone]>
    (<["tag" := PStr tag]> (<["track" := track]> ∅))).

(** Attribute read: the instance dictionary first, then [__getattr__]. *)
Definition __getattr__ (attr : string) (self : t) : result pyobj :=
  let slot (name : string) :=
    match self !! name with
    | Some v => Ok v
    | None => Raise (AttributeError
                ("No such TrackNumberingTag attribute: " +:+ name))
    end in
  match self !! attr with
  | Some v => Ok v
  | None =>
      if decide (attr = "value") then slot "f_value"
      else if decide (attr = "total") then slot "f_total"
      else Raise (AttributeError
             ("No such TrackNumberingTag attribute: " +:+ attr))
  end.

(** ['%d' % v] *)
Definition percent_d (v : pyobj) : result string :=
  match v with
  | PInt n => Ok (format_d n)
  | _ => Raise (TypeError "%d format: a number is required")
  end.

Definition __repr__ (self : t) : result string :=
  match __getattr__ "total" self with
  | Raise e => Raise e
  | Ok PNone =>
      match __getattr__ "value" self with
      | Raise e => Raise e
      | Ok value => percent_d value
      end
  | Ok total =>
      match __getattr__ "value" self with
      | Raise e => Raise e
      | Ok value =>
          match percent_d value with
          | Raise e => Raise e
          | Ok a => result_map (λ b, a +:+ "/" +:+ b) (percent_d total)
          end
      end
  end.

End methods.

(** The slot an assignment to [value] or [total] writes. *)
Definition slot_of (attr : string) : string :=
  if decide (attr = "value") then "f_value" else "f_total".

(** What an assigned object contributes: a non-empty list its first
    element, anything that is not a list itself. *)
Definition contributed (value : pyobj) : option pyobj :=
  match value with
  | PList [] => None
  | PList (v0 :: _) => Some v0
  | _ => Some value
  end.

(** What the class keeps true of its instances: [value] and [total] are
    never entries of the instance dictionary (so reading them goes
    through [__getattr__]), and the two slots exist. *)
Definition well_formed (self : t) : Prop :=
  self !! "value" = None ∧ self !! "total" = None
  ∧ is_Some (self !! "f_value") ∧ is_Some (self !! "f_total").

End TrackNumberingTag.

(** ** class Tags and Tags.TagParserInstance *)

Module Tags.

(** [musa.formats.MusaFileFormat], imported by the module: the
    attributes [load_tags] reads.  [get_tag_parser] gives the parser
    class, whose constructor loads the file. *)
Record MusaFileFormat := mkFormat {
  ff_path : string;
  codec : option string;
  is_metadata : bool;
  get_tag_parser : option (option string → string → result TagParser.t);
}.

(** The operating system and the format registry. *)
Class Env := {
  isfile : string → bool;
  realpath : string → string;
  normalized : string → string;
  format_of_path : string → MusaFileFormat;   (* MusaFileFormat(path) *)
}.

Record TagParserInstance := mkInstance {
  inst_path : string;
  fileformat : MusaFileFormat;
  tags : TagParser.t;
}.

(** The class attribute [Tags.__instances], a dictionary from the path
    given to the constructor to a reference, and the objects the
    references stand for. *)
Record class_state := mkClass {
  instances : gmap string nat;
  heap : list TagParserInstance;
}.

Definition initial : class_state := mkClass ∅ [].

(** A [Tags] object: its [path]; its other entry is the shared
    [Tags.__instances]. *)
Record Facade := mkFacade {
  facade_path : string;
}.

Section methods.
Context {env : Env}.

(** The key the specification expects: the resolved, normalized path. *)
Definition canonical (p : string) : string := normalized (realpath p).

Definition load_tags (self_path : string) (ff : MusaFileFormat)
    : result TagParser.t :=
  if is_metadata ff
  then Raise (TagError "Attempting to load audio tags from metadata file")
  else match get_tag_parser ff with
       | None => Raise (TagError ("No tag parser available for " +:+ ff_path ff))
       | Some tag_parser => tag_parser (codec ff) self_path
       end.

(** [fileformat]: [None], a [MusaFileFormat], or some other object. *)
Definition TagParserInstance__init__ (path : string)
    (fileformat : option (pyobj + MusaFileFormat)) : result TagParserInstance :=
  if negb (isfile path) then Raise (TagError ("No such file: " +:+ path))
  else
    let self_path := normalized (realpath path) in
    match (match fileformat with
           | None => inr (format_of_path path)
           | Some f => f
           end) with
    | inl _ => Raise (TagError "File format must be MusaFileFormat instance")
    | inr ff =>
        match codec ff with
        | None => Raise (TagError ("Unsupported audio file: " +:+ path))
        | Some _ =>
            match load_tags self_path ff with
            | Raise e => Raise e
            | Ok tp => Ok (mkInstance self_path ff tp)
            end
        end
    end.

Definition __init__ (path : string)
    (fileformat : option (pyobj + MusaFileFormat)) (st : class_state)
    : result Facade * class_state :=
  match instances st !! path with
  | Some _ => (Ok (mkFacade path), st)
  | None =>
      match TagParserInstance__init__ path fileformat with
      | Raise e => (Raise e, st)
      | Ok inst =>
          (Ok (mkFacade path),
           mkClass (<[path := length (heap st)]> (instances st))
                   (heap st ++ [inst]))
      end
  end.

(** [self.__instances[self.path]], to which [__getattr__] and
    [__setattr__] delegate. *)
Definition delegate (self : Facade) (st : class_state) : option nat :=
  instances st !! facade_path self.

Definition delegate_instance (self : Facade) (st : class_state)
    : option TagParserInstance :=
  r ← delegate self st; heap st !! r.

(** The cache is well formed when every entry refers to an object of
    the heap whose stored path is the canonical form of the entry's
    key, and no two keys refer to the same object. *)
Definition cache_ok (st : class_state) : Prop :=
  ∀ p r, instances st !! p = Some r →
    (∃ inst, heap st !! r = Some inst ∧ inst_path inst = canonical p)
    ∧ ∀ p', instances st !! p' = Some r → p' = p.

(** A sequence of constructor calls; a call that raises leaves the
    class as it was. *)
Fixpoint construct_all (calls : list (string * option (pyobj + MusaFileFormat)))
    (st : class_state) : class_state :=
  match calls with
  | [] => st
  | (p, ff) :: calls' => construct_all calls' (__init__ p ff st).2
  end.

End methods.

(** Methods of [TagParserInstance] that do more than delegate; they act
    on the parser in [self.tags]. *)
Section instance_methods.
Context {constants : TagConstants} {codec : TagParser.Codec}.

(** The body of the loop of [remove_tags]. *)
Definition remove_tags_body (tag : string) : TagParser.M unit :=
  TagParser.bind TagParser.keys (λ ks,
    if decide (tag ∉ ks) then TagParser.ret tt
    else TagParser.__delitem__ tag).

Definition remove_tags (tags : list string) : TagParser.M unit :=
  TagParser.bind (TagParser.for_each tags remove_tags_body) (λ _,
  TagParser.bind (TagParser.gets TagParser.modified) (λ m,
    if m then TagParser.save else TagParser.ret tt)).

Definition update_tags (tags : pyobj) : TagParser.M unit :=
  TagParser.bind (TagParser.update_tags tags) (λ m,
    if m then TagParser.save else TagParser.ret tt).

End instance_methods.

End Tags.

(** ** musa.sync: [ntfs_rename] *)

Module Sync.

(** A Python string as its list of characters. *)
Definition str (s : string) : list ascii := list_ascii_of_string s.

(** [REPLACE_MAP]: each character with its replacement, as the literal
    lists them. *)
Definition REPLACE_MAP : list (ascii * list ascii) :=
  [("|"%char, str "-");
   (">"%char, str "-");
   ("<"%char, str "-");
   ("034"%char, str "");
   (":"%char, str " - ");
   ("?"%char, str "");
   ("!"%char, str "");
   ("*"%char, str "")].

(** [path.replace(c, r)] for a one-character [c]. *)
Fixpoint replace (c : ascii) (r : list ascii) (path : list ascii) : list ascii :=
  match path with
  | [] => []
  | a :: path' =>
      if decide (a = c) then r ++ replace c r path' else a :: replace c r path'
  end.

(** [path.split(sep)] for a one-character [sep]. *)
Fixpoint split (sep : ascii) (path : list ascii) : list (list ascii) :=
  match path with
  | [] => [[]]
  | a :: path' =>
      if decide (a = sep) then [] :: split sep path'
      else match split sep path' with
           | x :: xs => (a :: x) :: xs
           | [] => [[a]]
           end
  end.

(** [x.rstrip(chars)] *)
Fixpoint rstrip (chars : list ascii) (x : list ascii) : list ascii :=
  match x with
  | [] => []
  | a :: x' =>
      match rstrip chars x' with
      | [] => if decide (a ∈ chars) then [] else [a]
      | y => a :: y
      end
  end.

(** [sep.join(parts)] *)
Fixpoint join (sep : ascii) (parts : list (list ascii)) : list ascii :=
  match parts with
  | [] => []
  | [x] => x
  | x :: parts' => x ++ sep :: join sep parts'
  end.

(** [ntfs_rename(path)].  [sep] is [os.sep]; [items] is
    [REPLACE_MAP.items()] in the order the dictionary yields it. *)
Definition ntfs_rename (sep : ascii) (items : list (ascii * list ascii))
    (path : list ascii) : list ascii :=
  let path := fold_left (λ path cr, replace cr.1 cr.2 path) items path in
  join sep (rstrip (str ". ") <$> split sep path).

(** The characters [REPLACE_MAP] replaces. *)
Definition replaced_chars : list ascii := REPLACE_MAP.*1.

(** What an ordered list of replacements gives for one character: the
    replacement of the first pair for it, the character itself when there
    is none. *)
Definition substitute_with (items : list (ascii * list ascii)) (a : ascii)
    : list ascii :=
  match List.find (λ cr, bool_decide (cr.1 = a)) items with
  | Some cr => cr.2
  | None => [a]
  end.

(** One pass over the path that replaces each character by what
    [REPLACE_MAP] gives for it. *)
Definition substitute (a : ascii) : list ascii :=
  substitute_with REPLACE_MAP a.

(** A path component the target file system accepts at its end: it does
    not end with a dot or a space. *)
Definition ends_well (x : list ascii) : Prop :=
  ∀ a, last x = Some a → a ∉ str ". ".

End Sync.

(** ** The specification's reading of [get], for comparison with
    [TagParser.__getitem__] *)

Module Spec.
Section get.
Context {builtins : Builtins}.

(** Coercion of one element to text: decimal for integers, UTF-8
    decoding for byte strings, with an error naming the file. *)
Definition coerce (file field : string) (v : value) : result string :=
  match v with
  | VUnicode u => Ok u
  | VInt n => Ok (format_d n)
  | VStr b =>
      match unicode_utf8 b with
      | inr u => Ok u
      | inl emsg => Raise (TagError ("Error decoding " +:+ file +:+ " tag "
                                     +:+ field +:+ ": " +:+ emsg))
      end
  end.

Fixpoint coerce_all (file field : string) (vs : list value)
    : result (list string) :=
  match vs with
  | [] => Ok []
  | v :: vs' =>
      match coerce file field v with
      | Raise e => Raise e
      | Ok u => result_map (cons u) (coerce_all file field vs')
      end
  end.

(** The candidate native fields of a tag: its entry in the map, or
    the literal name. *)
Definition candidates (tm : list (string * option (list string)))
    (tag : string) : list string :=
  match List.find (λ kv, bool_decide (tag = kv.1)) tm with
  | Some (_, Some fields) => fields
  | _ => [tag]
  end.

(** The first candidate present in the entry, with what it holds. *)
Definition first_present (e : Entry) (fields : list string)
    : option (string * native) :=
  match List.find (λ f, bool_decide (is_Some (entry_get e f))) fields with
  | Some f => option_map (pair f) (entry_get e f)
  | None => None
  end.

Definition get (p : TagParser.t) (tag : string) : result (list string) :=
  let fields := candidates (TagParser.tag_map p) tag in
  match first_present (TagParser.entry p) fields with
  | None => Raise (KeyError fields)
  | Some (field, Many vs) => coerce_all (TagParser.path p) field vs
  | Some (field, One v) => coerce_all (TagParser.path p) field [v]
  end.
End get.
End Spec.

(** ** Concrete collaborators for the examples *)

Module Demo.

(** Stand-ins for the interpreter's builtins: they agree with CPython on
    ASCII byte strings and on plain decimal numerals, the only inputs
    the examples give them. *)
Definition ascii_only (s : string) : bool :=
  forallb (λ a, Nat.ltb (nat_of_ascii a) 128) (list_ascii_of_string s).

Definition builtins : Builtins := {|
  unicode_utf8 b :=
    if ascii_only b then inr b
    else inl "'utf8' codec can't decode byte: ordinal not in range";
  int_of_text s := option_map Z.of_int (NilZero.int_of_string s);
|}.

Definition constants : TagConstants := {|
  STANDARD_TAG_ORDER := ["album_artist"; "artist"; "album"; "title"];
|}.

(** The base class: [set_tag] unimplemented; a native save that succeeds. *)
Definition base_codec : TagParser.Codec := {|
  TagParser.set_tag := TagParser.base_set_tag;
  TagParser.entry_save _ _ := None;
|}.

(** A parser over a file with an artist, two fields that map to one
    non-standard name, and a title. *)
Definition parser : TagParser.t :=
  TagParser.mk "/music/a.mp3"
    [("artist", Some ["TPE1"]);
     ("android_loop", Some ["ANDROID_LOOP"; "LOOP"]);
     ("title", Some ["TIT2"]);
     ("cover", None)]
    false
    [("LOOP", One (VUnicode "yes"));
     ("TIT2", Many [VUnicode "Song"; VUnicode "Alt"]);
     ("ANDROID_LOOP", One (VInt 1));
     ("TPE1", One (VStr "Abba"))]
    false
    None.

Definition dirty_parser : TagParser.t := TagParser.set_modified true parser.

Definition loaded_art : AlbumArt := mkAlbumArt true "PNG".

(** The same parser as a child class with artwork support leaves it:
    an empty [TrackAlbumart] assigned to [self.albumart]. *)
Definition art_parser : TagParser.t :=
  TagParser.set_albumart (Some TrackAlbumart.__init__) parser.

(** A file system where the relative and the absolute spelling of one
    file resolve to the same path, and every file is an mp3 whose
    parser loads an empty entry. *)
Definition mp3_format (p : string) : Tags.MusaFileFormat :=
  Tags.mkFormat p (Some "mp3") false
    (Some (λ _ file, Ok (TagParser.mk file [] false [] false None))).

Definition env : Tags.Env := {|
  Tags.isfile p := bool_decide (p ∈ ["a.mp3"; "/music/a.mp3"]);
  Tags.realpath p := if decide (p = "a.mp3") then "/music/a.mp3" else p;
  Tags.normalized p := p;
  Tags.format_of_path := mp3_format;
|}.

(** The same file system after the files have been removed. *)
Definition gone_env : Tags.Env := {|
  Tags.isfile _ := false;
  Tags.realpath p := p;
  Tags.normalized p := p;
  Tags.format_of_path := mp3_format;
|}.

End Demo.

(** ** Properties of methods that only read the parser *)

(** A method preserves an observation [f] of the state when, whatever it
    returns or raises, [f] reads the same afterwards. *)
Definition preserves {A X} (f : TagParser.St → X) (m : TagParser.M A) : Prop :=
  ∀ s, f (m s).2 = f s.

(** A method is read-only when it preserves the whole state: the parser
    object and the trace of effects. *)
Definition readonly {A} (m : TagParser.M A) : Prop :=
  preserves (λ s, s) m.

(** A method maintains a relation [R] when the state it ends in, returning
    or raising, is related by [R] to the state it started from. *)
Definition maintains {A} (R : TagParser.St → TagParser.St → Prop)
    (m : TagParser.M A) : Prop :=
  ∀ s, R s (m s).2.

(** Only deletions lie between two states: the same file and tag map,
    every field of the later entry held with the same content by the
    earlier one, the same trace of effects up to new events. *)
Definition only_deleted (s s' : TagParser.St) : Prop :=
  TagParser.path s'.1 = TagParser.path s.1
  ∧ TagParser.tag_map s'.1 = TagParser.tag_map s.1
  ∧ ∀ f v, entry_get (TagParser.entry s'.1) f = Some v →
           entry_get (TagParser.entry s.1) f = Some v.

(** Deletions only, and no effect performed. *)
Definition quietly_deleted (s s' : TagParser.St) : Prop :=
  only_deleted s s' ∧ s'.2 = s.2.

(** Every call from [s] of a list of set operations, in order. *)
Inductive set_each {codec : TagParser.Codec}
    : list (pyobj * pyobj) → TagParser.St → TagParser.St → Prop :=
| set_each_nil s : set_each [] s s
| set_each_cons k v kvs s s' s'' :
    TagParser.set_tag k v (s.1, s.2 ++ [TagParser.Print k v]) = (Ok tt, s') →
    set_each kvs s' s'' →
    set_each ((k, v) :: kvs) s s''.

(** The number of native saves in a trace. *)
Definition saves (io : list TagParser.event) : nat :=
  length (List.filter (λ ev, match ev with
                             | TagParser.EntrySave _ _ => true
                             | _ => false
                             end) io).

(** * Theorems *)

Section preserves.
Context {X : Type} (f : TagParser.St → X).

Lemma preserves_ret {A} (a : A) : preserves f (TagParser.ret a).
Proof. by intros s. Qed.

Lemma preserves_raise {A} (e : exn) : preserves f (@TagParser.raise A e).
Proof. by intros s. Qed.

Lemma preserves_gets {A} (g : TagParser.t → A) : preserves f (TagParser.gets g).
Proof. by intros s. Qed.

Lemma preserves_modify (h : TagParser.t → TagParser.t) :
  (∀ s, f (h s.1, s.2) = f s) → preserves f (TagParser.modify h).
Proof. intros Hh s. apply Hh. Qed.

Lemma preserves_bind {A B} (m : TagParser.M A) (k : A → TagParser.M B) :
  preserves f m → (∀ a, preserves f (k a)) → preserves f (TagParser.bind m k).
Proof.
  intros Hm Hk s. unfold TagParser.bind.
  specialize (Hm s). destruct (m s) as [[a|e] s']; simpl in Hm.
  - by rewrite Hk.
  - done.
Qed.

Lemma preserves_catch {A} (m : TagParser.M A)
    (h : exn → option (TagParser.M A)) :
  preserves f m → (∀ e k, h e = Some k → preserves f k) →
  preserves f (TagParser.catch m h).
Proof.
  intros Hm Hh s. unfold TagParser.catch.
  specialize (Hm s). destruct (m s) as [[a|e] s']; simpl in Hm.
  - done.
  - destruct (h e) as [k|] eqn:He; [|done].
    by rewrite (Hh e k He).
Qed.
End preserves.

Lemma readonly_preserves {A X} (f : TagParser.St → X) (m : TagParser.M A) :
  readonly m → preserves f m.
Proof. intros Hm s. by rewrite (Hm s). Qed.

Ltac readonly_step :=
  unfold readonly;
  first [ apply preserves_ret | apply preserves_raise | apply preserves_gets
        | apply preserves_bind; [|intros ?]
        | apply preserves_catch; [|intros [] ? ?; simplify_eq] ].

Lemma readonly_tag2fields (tag : string) : readonly (TagParser.__tag2fields__ tag).
Proof. unfold TagParser.__tag2fields__. repeat readonly_step. Qed.

Lemma readonly_field2tag (field : string) : readonly (TagParser.__field2tag__ field).
Proof. unfold TagParser.__field2tag__. repeat readonly_step. Qed.

Lemma readonly_iter (fields : option (list string)) : readonly (TagParser.iter fields).
Proof. destruct fields; readonly_step. Qed.

Lemma readonly_getitem_values {builtins : Builtins} field tag values :
  readonly (TagParser.getitem_values field tag values).
Proof.
  revert values. induction tag as [|v tag IH]; intros values; simpl.
  - readonly_step.
  - readonly_step; [|apply IH].
    destruct v; [readonly_step..|].
    destruct (unicode_utf8 b); repeat readonly_step.
Qed.

Lemma readonly_getitem_fields {builtins : Builtins} all fields :
  readonly (TagParser.getitem_fields all fields).
Proof.
  induction fields as [|f fields IH]; simpl.
  - readonly_step.
  - readonly_step; [readonly_step|].
    destruct (entry_get a f); [apply readonly_getitem_values|apply IH].
Qed.

Lemma readonly_getitem {builtins : Builtins} item : readonly (TagParser.__getitem__ item).
Proof.
  unfold TagParser.__getitem__.
  readonly_step; [apply readonly_tag2fields|].
  readonly_step; [apply readonly_iter|apply readonly_getitem_fields].
Qed.

Lemma readonly_flatten_tag {builtins : Builtins} tag : readonly (TagParser.__flatten_tag__ tag).
Proof.
  unfold TagParser.__flatten_tag__.
  readonly_step.
  - readonly_step.
    + readonly_step; [apply readonly_getitem|readonly_step].
    + readonly_step.
  - destruct a as [[|? ?]|]; readonly_step.
Qed.

Lemma readonly_has_key_loop ks : readonly (TagParser.has_key_loop ks).
Proof.
  induction ks as [|k ks IH]; simpl; [readonly_step|].
  readonly_step; [readonly_step|].
  case_decide; [readonly_step|apply IH].
Qed.

Lemma readonly_has_key key : readonly (TagParser.has_key key).
Proof.
  unfold TagParser.has_key.
  readonly_step; [apply readonly_tag2fields|].
  readonly_step; [apply readonly_iter|apply readonly_has_key_loop].
Qed.

Lemma readonly_get_tag {builtins : Builtins} item : readonly (TagParser.get_tag item).
Proof.
  unfold TagParser.get_tag.
  readonly_step; [apply readonly_has_key|].
  destruct (negb a); [readonly_step|].
  readonly_step; [apply readonly_flatten_tag|].
  destruct a0; readonly_step.
Qed.

(** ** Reading a tag whose candidate fields are all absent *)

Lemma has_key_loop_absent (ks : list string) (s : TagParser.St) :
  (∀ k, k ∈ ks → k ∉ entry_keys (TagParser.entry s.1)) →
  TagParser.has_key_loop ks s = (Ok false, s).
Proof.
  induction ks as [|k ks IH]; intros Habs; simpl; [done|].
  unfold TagParser.bind, TagParser.gets; simpl.
  case_decide as Hin.
  - exfalso. by apply (Habs k); [left|].
  - apply IH. intros k' Hk'. apply Habs. by right.
Qed.

Lemma has_key_absent (key : string) (fs : list string) (s : TagParser.St) :
  TagParser.tag2fields_loop (TagParser.tag_map s.1) key = Some fs →
  (∀ f, f ∈ fs → f ∉ entry_keys (TagParser.entry s.1)) →
  TagParser.has_key key s = (Ok false, s).
Proof.
  intros Hfs Habs.
  unfold TagParser.has_key, TagParser.__tag2fields__, TagParser.bind,
    TagParser.gets, TagParser.ret; simpl.
  rewrite Hfs; simpl. by apply has_key_loop_absent.
Qed.



(** ** [__getitem__] against the specification's [get] *)

Lemma getitem_values_coerce_all {builtins : Builtins}
    (field : string) (tag : list value) (acc : list string) (s : TagParser.St) :
  TagParser.getitem_values field tag acc s
  = (result_map (app acc) (Spec.coerce_all (TagParser.path s.1) field tag), s).
Proof.
  revert acc. induction tag as [|v tag IH]; intros acc; simpl.
  - unfold TagParser.ret. by rewrite app_nil_r.
  - unfold TagParser.bind at 1.
    destruct v as [u|n|b]; simpl.
    + rewrite IH. destruct (Spec.coerce_all _ _ _); simpl; [|done].
      by rewrite <- app_assoc.
    + rewrite IH. destruct (Spec.coerce_all _ _ _); simpl; [|done].
      by rewrite <- app_assoc.
    + destruct (unicode_utf8 b) as [emsg|u]; simpl; [done|].
      rewrite IH. destruct (Spec.coerce_all _ _ _); simpl; [|done].
      by rewrite <- app_assoc.
Qed.

Lemma getitem_fields_first_present {builtins : Builtins}
    (all fields : list string) (s : TagParser.St) :
  TagParser.getitem_fields all fields s
  = (match Spec.first_present (TagParser.entry s.1) fields with
     | None => Raise (KeyError all)
     | Some (field, Many vs) => Spec.coerce_all (TagParser.path s.1) field vs
     | Some (field, One v) => Spec.coerce_all (TagParser.path s.1) field [v]
     end, s).
Proof.
  induction fields as [|f fields IH]; simpl; [done|].
  unfold TagParser.bind at 1, TagParser.gets at 1; simpl.
  unfold Spec.first_present; simpl.
  destruct (entry_get (TagParser.entry s.1) f) as [tag|] eqn:Hget; simpl.
  - rewrite Hget; simpl. rewrite getitem_values_coerce_all.
    destruct tag as [v|vs]; simpl.
    + by destruct (Spec.coerce _ _ v).
    + by destruct (Spec.coerce_all _ _ vs).
  - apply IH.
Qed.

Lemma tag2fields_loop_candidates (tm : list (string * option (list string)))
    (tag : string) (fs : list string) :
  TagParser.tag2fields_loop tm tag = Some fs → Spec.candidates tm tag = fs.
Proof.
  unfold Spec.candidates.
  induction tm as [|[name tags] tm IH]; simpl; intros Hfs.
  - by simplify_eq.
  - case_decide as Heq.
    + rewrite bool_decide_eq_true_2 by done. by subst tags.
    + rewrite bool_decide_eq_false_2 by done. by apply IH.
Qed.

(** On every tag name that the map resolves to a field list or leaves
    unmapped, [__getitem__] computes the specification's [get]: the
    candidate fields are the map's list for the name, or the name itself
    when unmapped; they are scanned in order; the first one present gives
    the list of all its elements coerced to text (decimal for integers,
    UTF-8 decoding for byte strings, a [TagError] naming the file and
    field when decoding fails); with no candidate present the not-found
    [KeyError] is raised.  The parser is left unchanged. *)
Theorem getitem_refines_spec_get {builtins : Builtins}
    (item : string) (fs : list string) (s : TagParser.St) :
  TagParser.tag2fields_loop (TagParser.tag_map s.1) item = Some fs →
  TagParser.__getitem__ item s = (Spec.get s.1 item, s).
Proof.
  intros Hfs.
  unfold TagParser.__getitem__, TagParser.__tag2fields__, TagParser.bind at 1 2,
    TagParser.bind at 1, TagParser.gets, TagParser.ret; simpl.
  rewrite Hfs; simpl.
  rewrite getitem_fields_first_present.
  unfold Spec.get. by rewrite (tag2fields_loop_candidates _ _ _ Hfs).
Qed.

Lemma getitem_refines_spec_get_witness :
  TagParser.__getitem__ (builtins := Demo.builtins) "android_loop" (Demo.parser, [])
  = (Ok ["1"], (Demo.parser, [])).
Proof.
  exact (getitem_refines_spec_get (builtins := Demo.builtins) "android_loop"
           ["ANDROID_LOOP"; "LOOP"] (Demo.parser, []) eq_refl).
Defined.

(** A name the map holds with [None]: [__tag2fields__] hands that [None]
    back and the scan over it raises [TypeError], whatever the entry
    holds. *)
Lemma getitem_internal_reference_raises {builtins : Builtins}
    (item : string) (s : TagParser.St) :
  TagParser.tag2fields_loop (TagParser.tag_map s.1) item = None →
  TagParser.__getitem__ item s
  = (Raise (TypeError "'NoneType' object is not iterable"), s).
Proof.
  intros Hnone.
  unfold TagParser.__getitem__, TagParser.__tag2fields__, TagParser.bind at 1 2,
    TagParser.bind at 1, TagParser.gets, TagParser.ret; simpl.
  by rewrite Hnone.
Qed.

(** C3, at the failing input.  The tag map of the parser holds the name
    [cover] with [None], an internal reference, and the entry has no
    field of that name.  Reading [cover] raises [TypeError], where the
    specification's [get] falls back to the field [cover] and raises the
    not-found [KeyError]; [__field2tag__], the sibling lookup, does skip
    the [None] entry and answers [cover] for the field [cover]. *)
Lemma getitem_internal_reference_type_error :
  TagParser.__getitem__ (builtins := Demo.builtins) "cover" (Demo.parser, [])
  = (Raise (TypeError "'NoneType' object is not iterable"), (Demo.parser, []))
  ∧ Spec.get (builtins := Demo.builtins) Demo.parser "cover"
    = Raise (KeyError ["cover"])
  ∧ TagParser.field2tag_loop (TagParser.tag_map Demo.parser) "cover" = "cover".
Proof. repeat split; reflexivity. Qed.

(** ** [keys]: the order and the multiplicity of the names *)

Lemma sort_keys_standard_filter (order keys acc : list string) :
  TagParser.sort_keys_standard order keys acc
  = acc ++ filter (λ k, k ∈ keys) order.
Proof.
  revert acc. induction order as [|k order IH]; intros acc; simpl.
  - by rewrite app_nil_r.
  - rewrite IH, filter_cons. case_decide; [|done].
    by rewrite <- app_assoc.
Qed.

Lemma sort_keys_other_filter {constants : TagConstants} (keys acc : list string) :
  TagParser.sort_keys_other keys acc
  = acc ++ filter (λ k, k ∉ STANDARD_TAG_ORDER) keys.
Proof.
  revert acc. induction keys as [|k keys IH]; intros acc; simpl.
  - by rewrite app_nil_r.
  - rewrite IH, filter_cons. case_decide; [|done].
    by rewrite <- app_assoc.
Qed.

Lemma sort_keys_filter {constants : TagConstants} (keys : list string) :
  TagParser.sort_keys keys
  = filter (λ k, k ∈ keys) STANDARD_TAG_ORDER
    ++ filter (λ k, k ∉ STANDARD_TAG_ORDER) keys.
Proof.
  unfold TagParser.sort_keys.
  by rewrite sort_keys_other_filter, sort_keys_standard_filter.
Qed.

Lemma sort_keys_elem_of {constants : TagConstants} (keys : list string) (k : string) :
  k ∈ TagParser.sort_keys keys ↔ k ∈ keys.
Proof.
  rewrite sort_keys_filter, elem_of_app, !list_elem_of_filter.
  split.
  - by intros [[? _]|[_ ?]].
  - intros Hk. destruct (decide (k ∈ STANDARD_TAG_ORDER)); [left|right]; done.
Qed.

Lemma comprehension_field2tag (fields : list string) (s : TagParser.St) :
  TagParser.comprehension TagParser.__field2tag__ fields s
  = (Ok (TagParser.field2tag_loop (TagParser.tag_map s.1) <$> fields), s).
Proof.
  induction fields as [|f fields IH]; simpl; [done|].
  unfold TagParser.bind at 1, TagParser.__field2tag__ at 1; simpl.
  unfold TagParser.bind at 1. by rewrite IH.
Qed.

(** What [__field2tag__] answers: the name of the first map entry whose
    field list holds the field, or the field itself when no entry does. *)
Lemma field2tag_loop_cases (tm : list (string * option (list string)))
    (field : string) :
  (∃ tags, (TagParser.field2tag_loop tm field, Some tags) ∈ tm ∧ field ∈ tags)
  ∨ (TagParser.field2tag_loop tm field = field
     ∧ ∀ name tags, (name, Some tags) ∈ tm → field ∉ tags).
Proof.
  induction tm as [|[name [tags|]] tm IH]; simpl.
  - right. split; [done|]. intros ? ? Hin. by apply elem_of_nil in Hin.
  - case_decide as Hin.
    + left. exists tags. split; [left|done].
    + destruct IH as [(tags' & Hmem & Hf)|[Heq Hnone]].
      * left. exists tags'. split; [by right|done].
      * right. split; [done|]. intros n ts Hmem.
        apply elem_of_cons in Hmem as [Hhd|Htl]; [by simplify_eq|by eapply Hnone].
  - destruct IH as [(tags' & Hmem & Hf)|[Heq Hnone]].
    + left. exists tags'. split; [by right|done].
    + right. split; [done|]. intros n ts Hmem.
      apply elem_of_cons in Hmem as [Hhd|Htl]; [by simplify_eq|by eapply Hnone].
Qed.

(** C5, as the code has it.  [keys] maps each native field present to its
    canonical name (the field itself when unmapped), one name per field in
    encounter order; the result is the entries of the standard ordering
    list that occur among these names, in that list's order, followed by
    the names outside the standard list in encounter order, once per
    field that maps to them.  The result holds exactly the names of the
    fields present; the parser is left unchanged. *)
Theorem keys_standard_first_then_encounter {constants : TagConstants}
    (s : TagParser.St) :
  let names := TagParser.field2tag_loop (TagParser.tag_map s.1)
                 <$> entry_keys (TagParser.entry s.1) in
  let sorted := filter (λ k, k ∈ names) STANDARD_TAG_ORDER
                ++ filter (λ k, k ∉ STANDARD_TAG_ORDER) names in
  TagParser.keys s = (Ok sorted, s)
  ∧ ∀ k, k ∈ sorted ↔ k ∈ names.
Proof.
  intros names sorted. split.
  - unfold TagParser.keys, TagParser.bind at 1, TagParser.gets at 1; simpl.
    unfold TagParser.bind at 1. rewrite comprehension_field2tag.
    unfold TagParser.ret. by rewrite sort_keys_filter.
  - intros k. unfold sorted. rewrite <- sort_keys_filter. apply sort_keys_elem_of.
Qed.

(** C5, counterexample to "deduplicated": two native fields that map to
    one name outside the standard list give that name twice. *)
Lemma keys_repeats_nonstandard_name :
  TagParser.keys (constants := Demo.constants) (Demo.parser, [])
  = (Ok ["artist"; "title"; "android_loop"; "android_loop"], (Demo.parser, [])).
Proof. reflexivity. Qed.

(** ** [values] against [items] *)

Lemma values_loop_items_loop {builtins : Builtins} (ks : list string)
    (tags : list (string * string)) (s : TagParser.St) :
  TagParser.values_loop ks (tags.*2) s
  = (result_map (fmap snd) (TagParser.items_loop ks tags s).1,
     (TagParser.items_loop ks tags s).2).
Proof.
  revert tags s. induction ks as [|tag ks IH]; intros tags s; simpl; [done|].
  unfold TagParser.bind.
  destruct (TagParser.__flatten_tag__ tag s) as [[[v|]|e] s']; simpl.
  - replace (tags.*2 ++ [v]) with ((tags ++ [(tag, v)]).*2)
      by (by rewrite fmap_app).
    apply IH.
  - apply IH.
  - done.
Qed.

(** C10. [values()] is the list of second components of [items()], in the
    same order, and raises whatever [items()] raises; both end in the
    same state. *)
Theorem values_are_items_second_components {builtins : Builtins}
    {constants : TagConstants} (s : TagParser.St) :
  TagParser.values s
  = (result_map (fmap snd) (TagParser.items s).1, (TagParser.items s).2).
Proof.
  unfold TagParser.values, TagParser.items, TagParser.bind.
  destruct (TagParser.keys s) as [[ks|e] s']; simpl; [|done].
  apply (values_loop_items_loop ks []).
Qed.

(** ** [update_tags] *)

Lemma for_each_set_each {codec : TagParser.Codec}
    (kvs : list (pyobj * pyobj)) (s s' : TagParser.St) :
  TagParser.for_each kvs
    (λ kv, TagParser.bind (TagParser.emit (TagParser.Print kv.1 kv.2))
             (λ _, TagParser.set_tag kv.1 kv.2)) s = (Ok tt, s')
  ↔ set_each kvs s s'.
Proof.
  revert s. induction kvs as [|[k v] kvs IH]; intros s; simpl.
  - split.
    + intros [= <-]. constructor.
    + inversion 1. done.
  - unfold TagParser.bind at 1 2, TagParser.emit; simpl. split.
    + destruct (TagParser.set_tag k v _) as [[[]|e] s1] eqn:Hset; [|done].
      intros Hrest. econstructor; [exact Hset|]. by apply IH.
    + inversion 1 as [|? ? ? ? s1 ? Hset Hrest]; subst.
      rewrite Hset. by apply IH.
Qed.

(** C9. A [data] that is not a dictionary makes [update_tags] raise
    [TagError] with the parser, the native entry, the modified flag and
    the trace of effects untouched, no [set_tag] having run.  On a
    dictionary, [update_tags] returns normally exactly when [set_tag]
    has been called on every key/value pair in turn, each call
    succeeding, and what it returns is the modified flag of the state
    these calls end in. *)
Theorem update_tags_rejects_non_dict_else_sets_all {codec : TagParser.Codec}
    (data : pyobj) (s : TagParser.St) :
  match data with
  | PDict kvs =>
      ∀ b s', TagParser.update_tags data s = (Ok b, s')
              ↔ set_each kvs s s' ∧ b = TagParser.modified s'.1
  | _ =>
      TagParser.update_tags data s
      = (Raise (TagError "Updated tags must be a dictionary instance"), s)
  end.
Proof.
  destruct data as [| | | | |kvs|]; try reflexivity.
  intros b s'. unfold TagParser.update_tags, TagParser.bind at 1.
  split.
  - destruct (TagParser.for_each kvs _ s) as [[[]|e] s1] eqn:Hloop; [|done].
    unfold TagParser.gets. intros [= <- <-].
    split; [by apply for_each_set_each|done].
  - intros [Hall ->]. apply for_each_set_each in Hall. by rewrite Hall.
Qed.

(** In the base class the first pair already raises: [set_tag] is left
    to the child class. *)
Lemma update_tags_base_class_raises (k v : pyobj) (kvs : list (pyobj * pyobj))
    (s : TagParser.St) :
  TagParser.update_tags (codec := Demo.base_codec) (PDict ((k, v) :: kvs)) s
  = (Raise (NotImplementedError "Must implement set_tag in child"),
     (s.1, s.2 ++ [TagParser.Print k v])).
Proof. reflexivity. Qed.

(** ** The modified flag: [__delitem__] and [save] *)

Lemma delitem_loop_cons (f : string) (fs : list string) (s : TagParser.St) :
  TagParser.for_each (f :: fs) TagParser.delitem_body s
  = TagParser.for_each fs TagParser.delitem_body
      (if decide (f ∈ entry_keys (TagParser.entry s.1))
       then (TagParser.set_modified true
               (TagParser.set_entry (entry_del (TagParser.entry s.1) f) s.1), s.2)
       else s).
Proof.
  simpl. unfold TagParser.bind at 1, TagParser.delitem_body at 1,
    TagParser.bind at 1, TagParser.gets at 1; simpl.
  by case_decide.
Qed.

Lemma delitem_loop_returns (fs : list string) (s : TagParser.St) :
  (TagParser.for_each fs TagParser.delitem_body s).1 = Ok tt
  ∧ (TagParser.for_each fs TagParser.delitem_body s).2.2 = s.2.
Proof.
  revert s. induction fs as [|f fs IH]; intros s; [done|].
  rewrite delitem_loop_cons. case_decide; [|apply IH].
  by destruct (IH (TagParser.set_modified true
                     (TagParser.set_entry (entry_del (TagParser.entry s.1) f) s.1),
                   s.2)).
Qed.

Lemma delitem_loop_keeps_true (fs : list string) (s : TagParser.St) :
  TagParser.modified s.1 = true →
  TagParser.modified (TagParser.for_each fs TagParser.delitem_body s).2.1 = true.
Proof.
  revert s. induction fs as [|f fs IH]; intros s Hm; [done|].
  rewrite delitem_loop_cons. case_decide; by apply IH.
Qed.

Lemma delitem_loop_present (fs : list string) (s : TagParser.St) :
  (∃ f, f ∈ fs ∧ f ∈ entry_keys (TagParser.entry s.1)) →
  TagParser.modified (TagParser.for_each fs TagParser.delitem_body s).2.1 = true.
Proof.
  revert s. induction fs as [|f fs IH]; intros s (f' & Hin & Hpresent).
  - by apply elem_of_nil in Hin.
  - rewrite delitem_loop_cons. case_decide as Hf.
    + by apply delitem_loop_keeps_true.
    + apply IH. exists f'. split; [|done].
      apply elem_of_cons in Hin as [->|Hin]; done.
Qed.

Lemma delitem_loop_absent (fs : list string) (s : TagParser.St) :
  (∀ f, f ∈ fs → f ∉ entry_keys (TagParser.entry s.1)) →
  TagParser.for_each fs TagParser.delitem_body s = (Ok tt, s).
Proof.
  revert s. induction fs as [|f fs IH]; intros s Habs; [done|].
  rewrite delitem_loop_cons. case_decide as Hf.
  - exfalso. by apply (Habs f); [left|].
  - apply IH. intros f' Hf'. apply Habs. by right.
Qed.

Lemma delitem_unfold (item : string) (fs : list string) (s : TagParser.St) :
  TagParser.tag2fields_loop (TagParser.tag_map s.1) item = Some fs →
  TagParser.__delitem__ item s = TagParser.for_each fs TagParser.delitem_body s.
Proof.
  intros Hfs.
  unfold TagParser.__delitem__, TagParser.__tag2fields__, TagParser.bind at 1 2,
    TagParser.bind at 1, TagParser.gets at 1, TagParser.ret at 1; simpl.
  by rewrite Hfs.
Qed.

(** C1, as the code has it.  A delete that removes at least one native
    field sets the modified flag, and a delete that finds none of the
    candidate fields changes nothing.  [save()] with the flag false does
    nothing at all.  [save()] never changes the parser object, so the
    flag is not reset: with the flag true every call performs the native
    save again, whether the save succeeds or raises. *)
Theorem save_gated_by_flag_never_resets_it {codec : TagParser.Codec}
    (item : string) (fs : list string) (s : TagParser.St) :
  TagParser.tag2fields_loop (TagParser.tag_map s.1) item = Some fs →
  ((TagParser.__delitem__ item s).1 = Ok tt
   ∧ ((∃ f, f ∈ fs ∧ f ∈ entry_keys (TagParser.entry s.1)) →
      TagParser.modified (TagParser.__delitem__ item s).2.1 = true)
   ∧ ((∀ f, f ∈ fs → f ∉ entry_keys (TagParser.entry s.1)) →
      (TagParser.__delitem__ item s).2 = s))
  ∧ (TagParser.modified s.1 = false → TagParser.save s = (Ok tt, s))
  ∧ (TagParser.save s).2.1 = s.1
  ∧ (TagParser.modified s.1 = true →
     (TagParser.save s).2.2
     = s.2 ++ [TagParser.EntrySave (TagParser.path s.1) (TagParser.entry s.1)]
     ∧ saves (TagParser.save s).2.2 = S (saves s.2)).
Proof.
  intros Hfs. rewrite (delitem_unfold item fs s Hfs).
  split; [|split; [|split]].
  - split; [apply delitem_loop_returns|]. split.
    + apply delitem_loop_present.
    + intros Habs. by rewrite delitem_loop_absent.
  - intros Hm. unfold TagParser.save, TagParser.bind, TagParser.gets; simpl.
    by rewrite Hm.
  - unfold TagParser.save, TagParser.bind, TagParser.gets, TagParser.emit; simpl.
    destruct (TagParser.modified s.1); simpl; [|done].
    by destruct (TagParser.entry_save _ _).
  - intros Hm.
    assert ((TagParser.save s).2.2
            = s.2 ++ [TagParser.EntrySave (TagParser.path s.1)
                        (TagParser.entry s.1)]) as Hio.
    { unfold TagParser.save, TagParser.bind, TagParser.gets, TagParser.emit; simpl.
      rewrite Hm; simpl. by destruct (TagParser.entry_save _ _). }
    split; [done|]. rewrite Hio. unfold saves.
    rewrite List.filter_app, length_app; simpl. lia.
Qed.

Lemma save_gated_by_flag_never_resets_it_witness :
  TagParser.modified
    (TagParser.__delitem__ "android_loop" (Demo.parser, [])).2.1 = true.
Proof.
  refine (proj1 (proj2 (proj1
    (save_gated_by_flag_never_resets_it (codec := Demo.base_codec)
       "android_loop" ["ANDROID_LOOP"; "LOOP"] (Demo.parser, []) eq_refl))) _).
  exists "LOOP". split.
  - apply elem_of_cons. right. apply elem_of_cons. by left.
  - apply elem_of_cons. by left.
Defined.

(** C1, counterexample: on a modified parser whose native save succeeds,
    two calls of [save()] in a row both return normally, perform two
    native saves, and leave the flag true. *)
Lemma save_twice_saves_twice :
  let r := TagParser.bind (TagParser.save (codec := Demo.base_codec))
             (λ _, TagParser.save (codec := Demo.base_codec))
             (Demo.dirty_parser, []) in
  r.1 = Ok tt ∧ saves r.2.2 = 2 ∧ TagParser.modified r.2.1 = true.
Proof. by vm_compute. Qed.

(** ** [__setitem__] and the artwork import *)

(** [__setitem__] tests the key, not the value: with a key that is not
    an [AlbumArt], whatever the value, it is [set_tag] and nothing else. *)
Lemma setitem_plain_key_is_set_tag {builtins : Builtins} {codec : TagParser.Codec}
    (item value : pyobj) (s : TagParser.St) :
  (∀ a, item ≠ PAlbumArt a) →
  TagParser.__setitem__ item value s = TagParser.set_tag item value s.
Proof.
  intros Hkey. unfold TagParser.__setitem__, TagParser.bind.
  destruct item; try reflexivity. by destruct (Hkey a).
Qed.

(** C4, at the failing input: assigning a loaded [AlbumArt] under the key
    [u'albumart'] on a parser that holds an empty artwork object never
    reaches [import_albumart]; the value goes to [set_tag] (unimplemented
    in the base class) and the artwork object stays empty. *)
Lemma setitem_artwork_value_goes_to_set_tag :
  TagParser.__setitem__ (builtins := Demo.builtins) (codec := Demo.base_codec)
    (PUnicode "albumart") (PAlbumArt Demo.loaded_art) (Demo.art_parser, [])
  = (Raise (NotImplementedError "Must implement set_tag in child"),
     (Demo.art_parser, []))
  ∧ TagParser.albumart Demo.art_parser = Some (TrackAlbumart.mk false None).
Proof. split; reflexivity. Qed.

(** When the import block does run, on an [AlbumArt] key, it stores a
    loaded payload in the artwork object. *)
Lemma setitem_import_stores_loaded_art :
  TagParser.setitem_import (builtins := Demo.builtins)
    (PAlbumArt Demo.loaded_art) (Demo.art_parser, [])
  = (Ok tt,
     (TagParser.set_albumart
        (Some (TrackAlbumart.mk false (Some Demo.loaded_art))) Demo.art_parser,
      [])).
Proof. reflexivity. Qed.

Lemma preserves_getattr_albumart {builtins : Builtins} {X}
    (f : TagParser.St → X) :
  preserves f TagParser.getattr_albumart.
Proof.
  unfold TagParser.getattr_albumart.
  apply preserves_bind; [apply preserves_gets|intros [art|]].
  - apply preserves_ret.
  - apply preserves_bind.
    + apply preserves_catch.
      * apply preserves_bind; [|intros v; apply preserves_ret].
        apply readonly_preserves, readonly_getitem.
      * intros [] k ?; simplify_eq. apply preserves_ret.
    + intros [v|]; apply preserves_raise.
Qed.

Lemma setitem_import_keeps_parser_flag {builtins : Builtins} (value : pyobj) :
  preserves (λ s, (TagParser.modified s.1, TagParser.entry s.1))
    (TagParser.setitem_import value).
Proof.
  unfold TagParser.setitem_import.
  apply preserves_catch.
  - apply preserves_bind; [apply preserves_getattr_albumart|intros art].
    apply preserves_bind; [by apply preserves_modify|intros _].
    destruct (TrackAlbumart.import_albumart value art).1;
      [apply preserves_ret|apply preserves_raise].
  - intros [] k ?; simplify_eq. apply preserves_raise.
Qed.

(** C6, as the code has it.  [import_albumart] raises [TagError] and
    leaves the artwork object as it was when the payload is not an
    [AlbumArt] or is not loaded; otherwise it stores the payload and
    leaves the object's own modified flag as it was.  Run from the
    parser, the import changes neither the parser's modified flag nor its
    native entry. *)
Theorem import_albumart_stores_payload_keeps_flags {builtins : Builtins}
    (payload : pyobj) (self : TrackAlbumart.t)
    (value : pyobj) (s : TagParser.St) :
  match payload with
  | PAlbumArt art =>
      if is_loaded art
      then TrackAlbumart.import_albumart payload self
           = (Ok tt, TrackAlbumart.mk (TrackAlbumart.modified self) (Some art))
      else TrackAlbumart.import_albumart payload self
           = (Raise (TagError "Albumart to import is not loaded with image."), self)
  | _ => TrackAlbumart.import_albumart payload self
         = (Raise (TagError "Albumart must be AlbumArt instance"), self)
  end
  ∧ TagParser.modified (TagParser.setitem_import value s).2.1
    = TagParser.modified s.1
  ∧ TagParser.entry (TagParser.setitem_import value s).2.1 = TagParser.entry s.1.
Proof.
  split.
  2: { pose proof (setitem_import_keeps_parser_flag value s) as Hkeep.
       by simplify_eq/=. }
  destruct payload as [| | | | | |art]; try reflexivity.
  simpl. by destruct (is_loaded art).
Qed.

(** C6, counterexample to "sets its own modified flag": a successful
    import into a fresh artwork object stores the payload and the flag
    is still false. *)
Lemma import_albumart_leaves_own_flag_false :
  TrackAlbumart.import_albumart (PAlbumArt Demo.loaded_art) TrackAlbumart.__init__
  = (Ok tt, TrackAlbumart.mk false (Some Demo.loaded_art)).
Proof. reflexivity. Qed.

(** ** [TrackNumberingTag.__setattr__] *)

Lemma setattr_numbering_unfold {builtins : Builtins}
    (attr : string) (value : pyobj) (self : gmap string pyobj) :
  attr ∈ ["value"; "total"] →
  TrackNumberingTag.__setattr__ attr value self
  = match TrackNumberingTag.contributed value with
    | None => (Raise (IndexError "list index out of range"), self)
    | Some PNone => (Ok tt, <[TrackNumberingTag.slot_of attr := PNone]> self)
    | Some v0 =>
        match TrackNumberingTag.int v0 with
        | Ok n => (Ok tt, <[TrackNumberingTag.slot_of attr := PInt n]> self)
        | Raise _ =>
            (Raise (TagError "TrackNumberingTag values must be integers"), self)
        end
    end.
Proof.
  intros Hattr. unfold TrackNumberingTag.__setattr__.
  rewrite decide_True by done.
  assert (attr = "value" ∨ attr = "total") as [-> | ->].
  { apply elem_of_cons in Hattr as [?|Hattr]; [by left|].
    apply list_elem_of_singleton in Hattr. by right. }
  - change (TrackNumberingTag.slot_of "value") with "f_value".
    destruct value as [|n|b|u|[|v0 l]|kvs|a]; simpl; try done.
    + by destruct (int_of_text b).
    + by destruct (int_of_text u).
    + destruct v0 as [|n|b|u|l'|kvs|a]; simpl; try done.
      * by destruct (int_of_text b).
      * by destruct (int_of_text u).
  - change (TrackNumberingTag.slot_of "total") with "f_total".
    destruct value as [|n|b|u|[|v0 l]|kvs|a]; simpl; try done.
    + by destruct (int_of_text b).
    + by destruct (int_of_text u).
    + destruct v0 as [|n|b|u|l'|kvs|a]; simpl; try done.
      * by destruct (int_of_text b).
      * by destruct (int_of_text u).
Qed.

(** C7, as the code has it.  On an assignment to [value] or [total] a
    non-empty list contributes its first element and any other object
    itself.  [None] is stored as [None]; anything [int()] converts (an
    integer, numeric text) is stored as that integer; anything [int()]
    refuses is rejected with the [TagError].  Whenever the assignment
    raises, the object is left as it was. *)
Theorem setattr_numbering_coerces_with_int {builtins : Builtins}
    (attr : string) (value : pyobj) (self : gmap string pyobj) :
  attr ∈ ["value"; "total"] →
  (∀ v0, TrackNumberingTag.contributed value = Some v0 →
     match v0 with
     | PNone =>
         TrackNumberingTag.__setattr__ attr value self
         = (Ok tt, <[TrackNumberingTag.slot_of attr := PNone]> self)
     | _ =>
         match TrackNumberingTag.int v0 with
         | Ok n =>
             TrackNumberingTag.__setattr__ attr value self
             = (Ok tt, <[TrackNumberingTag.slot_of attr := PInt n]> self)
         | Raise _ =>
             TrackNumberingTag.__setattr__ attr value self
             = (Raise (TagError "TrackNumberingTag values must be integers"), self)
         end
     end)
  ∧ (∀ e, (TrackNumberingTag.__setattr__ attr value self).1 = Raise e →
          (TrackNumberingTag.__setattr__ attr value self).2 = self).
Proof.
  intros Hattr. rewrite (setattr_numbering_unfold attr value self Hattr). split.
  - intros v0 ->. destruct v0; try done; by destruct (TrackNumberingTag.int _).
  - intros e. destruct (TrackNumberingTag.contributed value) as [v0|]; [|done].
    destruct v0; try done; by destruct (TrackNumberingTag.int _).
Qed.

Lemma setattr_numbering_coerces_with_int_witness :
  TrackNumberingTag.__setattr__ (builtins := Demo.builtins) "value"
    (PList [PUnicode "12"]) (TrackNumberingTag.__init__ PNone "tracknumber")
  = (Ok tt, <["f_value" := PInt 12]> (TrackNumberingTag.__init__ PNone "tracknumber")).
Proof.
  refine (proj1 (setattr_numbering_coerces_with_int (builtins := Demo.builtins)
                   "value" (PList [PUnicode "12"])
                   (TrackNumberingTag.__init__ PNone "tracknumber") _)
            (PUnicode "12") eq_refl).
  apply elem_of_cons. by left.
Defined.

(** C7, counterexample to "anything else is rejected": a list of two
    integers and a numeric byte string are neither an integer, nor
    [None], nor a single-element list, and both are accepted. *)
Lemma setattr_numbering_accepts_more :
  TrackNumberingTag.__setattr__ (builtins := Demo.builtins) "value"
    (PList [PInt 1; PInt 2]) ∅
  = (Ok tt, <["f_value" := PInt 1]> ∅)
  ∧ TrackNumberingTag.__setattr__ (builtins := Demo.builtins) "total"
      (PStr "7") ∅
    = (Ok tt, <["f_total" := PInt 7]> ∅).
Proof. split; reflexivity. Qed.

(** ** The instance cache of [Tags] *)

Section cache.
Context {env : Tags.Env}.

Lemma tags_init_cached (p : string) ff (st : Tags.class_state) (r : nat) :
  Tags.instances st !! p = Some r →
  Tags.__init__ p ff st = (Ok (Tags.mkFacade p), st).
Proof. intros Hp. unfold Tags.__init__. by rewrite Hp. Qed.

Lemma instance_init_path (p : string) ff (inst : Tags.TagParserInstance) :
  Tags.TagParserInstance__init__ p ff = Ok inst →
  Tags.inst_path inst = Tags.canonical p.
Proof.
  unfold Tags.TagParserInstance__init__, Tags.canonical.
  destruct (negb (Tags.isfile p)); [done|].
  destruct (match ff with Some f => f | None => _ end) as [other|fmt]; [done|].
  destruct (Tags.codec fmt); [|done].
  destruct (Tags.load_tags _ fmt); [|done].
  by intros [= <-].
Qed.

Lemma tags_init_cases (p : string) ff (st : Tags.class_state) f st' :
  Tags.__init__ p ff st = (Ok f, st') →
  f = Tags.mkFacade p
  ∧ ((is_Some (Tags.instances st !! p) ∧ st' = st)
     ∨ (Tags.instances st !! p = None
        ∧ ∃ inst, Tags.TagParserInstance__init__ p ff = Ok inst
                  ∧ st' = Tags.mkClass
                            (<[p := length (Tags.heap st)]> (Tags.instances st))
                            (Tags.heap st ++ [inst]))).
Proof.
  unfold Tags.__init__.
  destruct (Tags.instances st !! p) as [r|] eqn:Hp.
  - intros [= <- <-]. split; [done|]. left. by split; [eexists|].
  - destruct (Tags.TagParserInstance__init__ p ff) as [inst|e] eqn:Hinst; [|done].
    intros [= <- <-]. split; [done|]. right. split; [done|]. by exists inst.
Qed.

Lemma cache_ok_initial : Tags.cache_ok Tags.initial.
Proof. intros p r Hp. simpl in Hp. by rewrite lookup_empty in Hp. Qed.

Lemma cache_ok_insert (p : string) (inst : Tags.TagParserInstance)
    (st : Tags.class_state) :
  Tags.cache_ok st →
  Tags.instances st !! p = None →
  Tags.inst_path inst = Tags.canonical p →
  Tags.cache_ok (Tags.mkClass
                   (<[p := length (Tags.heap st)]> (Tags.instances st))
                   (Tags.heap st ++ [inst])).
Proof.
  intros Hok Hnone Hpath q r; simpl. intros Hq.
  destruct (decide (p = q)) as [<-|Hne].
  - rewrite lookup_insert_eq in Hq. injection Hq as <-. split.
    + exists inst. split; [|done].
      rewrite lookup_app_r by lia. by rewrite Nat.sub_diag.
    + intros p' Hp'. destruct (decide (p = p')) as [|Hne']; [done|].
      rewrite lookup_insert_ne in Hp' by done.
      destruct (Hok p' _ Hp') as [(inst' & Hheap & _) _].
      apply lookup_lt_Some in Hheap. lia.
  - rewrite lookup_insert_ne in Hq by done.
    destruct (Hok q r Hq) as [(inst' & Hheap & Hcanon) Huniq]. split.
    + exists inst'. split; [|done]. by apply lookup_app_l_Some.
    + intros p' Hp'. destruct (decide (p = p')) as [<-|Hne'].
      * rewrite lookup_insert_eq in Hp'. injection Hp' as <-.
        apply lookup_lt_Some in Hheap. lia.
      * rewrite lookup_insert_ne in Hp' by done. by apply Huniq.
Qed.

Lemma cache_ok_init (p : string) ff (st : Tags.class_state) :
  Tags.cache_ok st → Tags.cache_ok (Tags.__init__ p ff st).2.
Proof.
  intros Hok. unfold Tags.__init__.
  destruct (Tags.instances st !! p) as [r|] eqn:Hp; [done|].
  destruct (Tags.TagParserInstance__init__ p ff) as [inst|e] eqn:Hinst; [|done].
  simpl. apply cache_ok_insert; [done..|]. by eapply instance_init_path.
Qed.

Lemma cache_ok_construct_all calls (st : Tags.class_state) :
  Tags.cache_ok st → Tags.cache_ok (Tags.construct_all calls st).
Proof.
  revert st. induction calls as [|[p ff] calls IH]; intros st Hok; simpl; [done|].
  by apply IH, cache_ok_init.
Qed.

(** C2, as the code has it.  The cache is keyed by the path as it is
    given.  In any state the class reaches by constructor calls, when
    [Tags(p)] succeeds: constructing [Tags(p)] again with the same
    string returns the same facade and changes nothing; the facade
    delegates to a cached instance whose stored path is the canonical
    form of [p]; no other path string shares that instance; and the
    keys of the cache are the previous keys and [p]. *)
Theorem tags_cache_one_instance_per_given_path
    (calls : list (string * option (pyobj + Tags.MusaFileFormat)))
    (p : string) (ff ff' : option (pyobj + Tags.MusaFileFormat))
    (f : Tags.Facade) (st' : Tags.class_state) :
  Tags.__init__ p ff (Tags.construct_all calls Tags.initial) = (Ok f, st') →
  Tags.__init__ p ff' st' = (Ok f, st')
  ∧ (∃ r inst, Tags.delegate f st' = Some r
               ∧ Tags.delegate_instance f st' = Some inst
               ∧ Tags.inst_path inst = Tags.canonical p
               ∧ ∀ p2, Tags.delegate (Tags.mkFacade p2) st' = Some r → p2 = p)
  ∧ dom (Tags.instances st')
    = dom (Tags.instances (Tags.construct_all calls Tags.initial)) ∪ {[p]}.
Proof.
  set (st := Tags.construct_all calls Tags.initial). intros Hinit.
  assert (Tags.cache_ok st') as Hok'.
  { replace st' with (Tags.__init__ p ff st).2 by (by rewrite Hinit).
    apply cache_ok_init, cache_ok_construct_all, cache_ok_initial. }
  destruct (tags_init_cases _ _ _ _ _ Hinit) as [-> Hcases].
  assert (is_Some (Tags.instances st' !! p)) as [r Hr].
  { destruct Hcases as [[Hsome ->]|(_ & inst & _ & ->)]; [done|].
    simpl. rewrite lookup_insert_eq. by eexists. }
  split; [by eapply tags_init_cached|]. split.
  - destruct (Hok' p r Hr) as [(inst & Hheap & Hcanon) Huniq].
    exists r, inst. unfold Tags.delegate_instance, Tags.delegate; simpl.
    rewrite Hr; simpl. repeat split; done.
  - destruct Hcases as [[Hsome ->]|(_ & inst & _ & ->)]; simpl.
    + apply elem_of_dom in Hsome. rewrite (comm_L (∪)). symmetry.
  apply subseteq_union_1_L. by apply singleton_subseteq_l.
    + by rewrite dom_insert_L, (comm_L (∪)).
Qed.

(** Two constructions with one path string share their instance. *)
Lemma tags_same_string_same_instance (p : string) ff ff'
    (st st1 st2 : Tags.class_state) (f1 f2 : Tags.Facade) :
  Tags.__init__ p ff st = (Ok f1, st1) →
  Tags.__init__ p ff' st1 = (Ok f2, st2) →
  st2 = st1 ∧ Tags.delegate f1 st2 = Tags.delegate f2 st2.
Proof.
  intros H1 H2.
  destruct (tags_init_cases _ _ _ _ _ H1) as [-> Hc1].
  assert (is_Some (Tags.instances st1 !! p)) as [r Hr].
  { destruct Hc1 as [[Hsome ->]|(_ & inst & _ & ->)]; [done|].
    simpl. rewrite lookup_insert_eq. by eexists. }
  rewrite (tags_init_cached p ff' st1 r Hr) in H2. by injection H2 as <- <-.
Qed.
End cache.

Lemma tags_cache_one_instance_per_given_path_witness :
  Tags.__init__ (env := Demo.env) "a.mp3" None
    (Tags.__init__ (env := Demo.env) "a.mp3" None Tags.initial).2
  = Tags.__init__ (env := Demo.env) "a.mp3" None Tags.initial.
Proof.
  exact (proj1 (tags_cache_one_instance_per_given_path (env := Demo.env)
                  [] "a.mp3" None None _ _ eq_refl)).
Defined.

(** C2, counterexample: the relative and the absolute spelling of one
    file resolve to the same canonical path, yet constructing [Tags]
    with each gives two cache entries and two distinct instances, both
    storing that canonical path. *)
Lemma tags_two_spellings_two_instances :
  let st1 := (Tags.__init__ (env := Demo.env) "a.mp3" None Tags.initial).2 in
  let r2 := Tags.__init__ (env := Demo.env) "/music/a.mp3" None st1 in
  Tags.canonical (env := Demo.env) "a.mp3"
  = Tags.canonical (env := Demo.env) "/music/a.mp3"
  ∧ r2.1 = Ok (Tags.mkFacade "/music/a.mp3")
  ∧ Tags.delegate (Tags.mkFacade "a.mp3") r2.2 = Some 0
  ∧ Tags.delegate (Tags.mkFacade "/music/a.mp3") r2.2 = Some 1
  ∧ size (Tags.instances r2.2) = 2
  ∧ Tags.inst_path <$> Tags.heap r2.2 = ["/music/a.mp3"; "/music/a.mp3"].
Proof. by vm_compute. Qed.

(** * Further properties of the module *)

(** ** Presence of a tag: [has_key], [__getitem__], [__delitem__] *)

Lemma elem_of_entry_keys (e : Entry) (f : string) :
  f ∈ entry_keys e ↔ is_Some (entry_get e f).
Proof.
  unfold entry_keys. induction e as [|[k v] e IH]; simpl.
  - split; [by intros ?%elem_of_nil|by intros [? ?]].
  - rewrite elem_of_cons. case_decide as Hk; simpl.
    + subst k. split; [by eexists|by left].
    + rewrite <- IH. split; [|by right]. by intros [->|?].
Qed.

Lemma has_key_loop_exists (ks : list string) (s : TagParser.St) :
  TagParser.has_key_loop ks s
  = (Ok (bool_decide (Exists (λ k, k ∈ entry_keys (TagParser.entry s.1)) ks)), s).
Proof.
  induction ks as [|k ks IH]; simpl; [done|].
  - unfold TagParser.bind, TagParser.gets; simpl. case_decide as Hk.
    + rewrite bool_decide_eq_true_2; [done|]. by left.
    + rewrite IH. do 2 f_equal. apply bool_decide_ext.
      rewrite Exists_cons. split; [by right|by intros [?|?]].
Qed.

Lemma first_present_none (e : Entry) (fs : list string) :
  Spec.first_present e fs = None
  ↔ ¬ Exists (λ f, f ∈ entry_keys e) fs.
Proof.
  unfold Spec.first_present. induction fs as [|f fs IH]; simpl.
  - split; [by intros _ ?%Exists_nil|done].
  - rewrite Exists_cons.
    destruct (entry_get e f) as [v|] eqn:Hget; simpl.
    + rewrite Hget; simpl. split; [done|]. intros Hno. exfalso. apply Hno.
      left. apply elem_of_entry_keys. by rewrite Hget.
    + rewrite IH. split.
      * intros Hno [Hf|Hfs]; [|done].
        apply elem_of_entry_keys in Hf. rewrite Hget in Hf. by destruct Hf.
      * intros Hno Hfs. apply Hno. by right.
Qed.

Lemma coerce_all_not_key_error {builtins : Builtins} file field vs fields :
  Spec.coerce_all file field vs ≠ Raise (KeyError fields).
Proof.
  induction vs as [|v vs IH]; simpl; [done|].
  destruct v as [u|n|b]; simpl.
  - by destruct (Spec.coerce_all file field vs).
  - by destruct (Spec.coerce_all file field vs).
  - destruct (unicode_utf8 b); [done|].
    by destruct (Spec.coerce_all file field vs).
Qed.

Lemma spec_get_key_error {builtins : Builtins} (p : TagParser.t) (item : string)
    (fs : list string) :
  TagParser.tag2fields_loop (TagParser.tag_map p) item = Some fs →
  (Spec.get p item = Raise (KeyError fs)
   ↔ ¬ Exists (λ f, f ∈ entry_keys (TagParser.entry p)) fs).
Proof.
  intros Hfs. unfold Spec.get.
  rewrite (tag2fields_loop_candidates _ _ _ Hfs), <- first_present_none.
  destruct (Spec.first_present (TagParser.entry p) fs) as [[field [v|vs]]|].
  - split; [|done]. intros Hk. by apply coerce_all_not_key_error in Hk.
  - split; [|done]. intros Hk. by apply coerce_all_not_key_error in Hk.
  - done.
Qed.

Lemma has_key_resolved (key : string) (fs : list string) (s : TagParser.St) :
  TagParser.tag2fields_loop (TagParser.tag_map s.1) key = Some fs →
  TagParser.has_key key s
  = (Ok (bool_decide (Exists (λ f, f ∈ entry_keys (TagParser.entry s.1)) fs)), s).
Proof.
  intros Hfs.
  unfold TagParser.has_key, TagParser.__tag2fields__, TagParser.bind,
    TagParser.gets, TagParser.ret; simpl.
  rewrite Hfs; simpl. apply has_key_loop_exists.
Qed.

(** [__getitem__] runs the specification's [get] on every name the map
    resolves. *)
Lemma getitem_runs_spec_get {builtins : Builtins}
    (item : string) (fs : list string) (s : TagParser.St) :
  TagParser.tag2fields_loop (TagParser.tag_map s.1) item = Some fs →
  TagParser.__getitem__ item s = (Spec.get s.1 item, s).
Proof.
  intros Hfs.
  unfold TagParser.__getitem__, TagParser.__tag2fields__, TagParser.bind at 1 2,
    TagParser.bind at 1, TagParser.gets, TagParser.ret; simpl.
  rewrite Hfs; simpl.
  rewrite getitem_fields_first_present.
  unfold Spec.get. by rewrite (tag2fields_loop_candidates _ _ _ Hfs).
Qed.

(** X1. For a tag name the map resolves, [has_key] leaves the parser as it
    was and answers whether some candidate native field is present; it
    answers [False] exactly when [__getitem__] raises the not-found
    [KeyError]. *)
Theorem has_key_false_iff_getitem_key_error {builtins : Builtins}
    (key : string) (fs : list string) (s : TagParser.St) :
  TagParser.tag2fields_loop (TagParser.tag_map s.1) key = Some fs →
  TagParser.has_key key s
  = (Ok (bool_decide (Exists (λ f, f ∈ entry_keys (TagParser.entry s.1)) fs)), s)
  ∧ ((TagParser.has_key key s).1 = Ok false
     ↔ (TagParser.__getitem__ key s).1 = Raise (KeyError fs)).
Proof.
  intros Hfs.
  pose proof (has_key_resolved key fs s Hfs) as Hhas.
  split; [done|].
  rewrite Hhas, (getitem_runs_spec_get key fs s Hfs); simpl.
  rewrite (spec_get_key_error s.1 key fs Hfs).
  split.
  - intros [= Hb]. by apply bool_decide_eq_false in Hb.
  - intros Hno. f_equal. by apply bool_decide_eq_false.
Qed.

Lemma has_key_false_iff_getitem_key_error_witness :
  TagParser.has_key "album" (Demo.parser, []) = (Ok false, (Demo.parser, [])).
Proof.
  exact (proj1 (has_key_false_iff_getitem_key_error (builtins := Demo.builtins)
                  "album" ["album"] (Demo.parser, []) eq_refl)).
Defined.

Lemma entry_del_absent (e : Entry) (f : string) :
  f ∉ entry_keys e → entry_del e f = e.
Proof.
  unfold entry_del, entry_keys. induction e as [|[k v] e IH]; simpl; [done|].
  intros Hf. apply not_elem_of_cons in Hf as [Hne Hf].
  rewrite bool_decide_eq_false_2 by done. simpl. by rewrite IH.
Qed.

Lemma entry_get_del (e : Entry) (f g : string) :
  entry_get (entry_del e f) g = if decide (g = f) then None else entry_get e g.
Proof.
  unfold entry_del. induction e as [|[k v] e IH]; simpl.
  - by case_decide.
  - destruct (decide (k = f)) as [->|Hkf].
    + rewrite bool_decide_eq_true_2 by done. simpl. rewrite IH.
      destruct (decide (g = f)) as [->|Hgf]; [done|].
      by rewrite decide_False by done.
    + rewrite bool_decide_eq_false_2 by done. simpl. rewrite IH.
      destruct (decide (k = g)) as [->|Hkg]; [|done].
      by rewrite decide_False by done.
Qed.

Lemma entry_get_foldl_del (e : Entry) (fs : list string) (g : string) :
  entry_get (foldl entry_del e fs) g
  = if decide (g ∈ fs) then None else entry_get e g.
Proof.
  revert e. induction fs as [|f fs IH]; intros e; simpl; [done|].
  - rewrite IH, entry_get_del.
    destruct (decide (g ∈ fs)) as [Hin|Hnin].
    + rewrite decide_True; [done|]. by right.
    + destruct (decide (g = f)) as [->|Hne].
      * rewrite decide_True; [done|]. by left.
      * rewrite decide_False; [done|]. by intros [?|?]%elem_of_cons.
Qed.

(** What the loop of [__delitem__] leaves: every candidate field deleted,
    the flag raised when one of them was there. *)
Lemma delitem_loop_closed_form (fs : list string) (s : TagParser.St) :
  TagParser.for_each fs TagParser.delitem_body s
  = (Ok tt,
     (TagParser.set_modified
        (TagParser.modified s.1
         || bool_decide (Exists (λ f, f ∈ entry_keys (TagParser.entry s.1)) fs))
        (TagParser.set_entry (foldl entry_del (TagParser.entry s.1) fs) s.1),
      s.2)).
Proof.
  revert s. induction fs as [|f fs IH]; intros [p io].
  - simpl. unfold TagParser.ret. by destruct p as [? ? ? ? [] ?].
  - rewrite delitem_loop_cons. simpl. case_decide as Hf.
    + rewrite IH; unfold TagParser.set_modified, TagParser.set_entry; simpl.
      rewrite (bool_decide_eq_true_2
                 (Exists (λ k, k ∈ entry_keys (TagParser.entry p)) (f :: fs)))
        by (by left).
      by rewrite orb_true_r.
    + rewrite IH; unfold TagParser.set_modified, TagParser.set_entry; simpl.
      rewrite (entry_del_absent _ _ Hf).
      rewrite (bool_decide_ext
                 (Exists (λ k, k ∈ entry_keys (TagParser.entry p)) (f :: fs))
                 (Exists (λ k, k ∈ entry_keys (TagParser.entry p)) fs)); [done|].
      rewrite Exists_cons. split; [by intros [?|?]|by right].
Qed.

(** X2. After [__delitem__] of a tag name the map resolves, no candidate
    field of the tag is left: [has_key] answers [False], [__getitem__]
    raises the not-found [KeyError], and deleting again changes nothing. *)
Theorem delitem_then_absent {builtins : Builtins}
    (item : string) (fs : list string) (s : TagParser.St) :
  TagParser.tag2fields_loop (TagParser.tag_map s.1) item = Some fs →
  let s' := (TagParser.__delitem__ item s).2 in
  TagParser.has_key item s' = (Ok false, s')
  ∧ TagParser.__getitem__ item s' = (Raise (KeyError fs), s')
  ∧ TagParser.__delitem__ item s' = (Ok tt, s').
Proof.
  intros Hfs s'.
  assert (TagParser.tag2fields_loop (TagParser.tag_map s'.1) item = Some fs)
    as Hfs'.
  { unfold s'. by rewrite (delitem_unfold item fs s Hfs), delitem_loop_closed_form. }
  assert (∀ f, f ∈ fs → f ∉ entry_keys (TagParser.entry s'.1)) as Habs.
  { intros f Hf. unfold s'.
    rewrite (delitem_unfold item fs s Hfs), delitem_loop_closed_form; simpl.
    rewrite elem_of_entry_keys, entry_get_foldl_del, decide_True by done.
    by intros [? ?]. }
  split; [by apply (has_key_absent item fs)|]. split.
  - rewrite (getitem_runs_spec_get item fs s' Hfs'). f_equal.
    apply (spec_get_key_error s'.1 item fs Hfs').
    intros (f & Hf & Hin)%Exists_exists. by apply (Habs f).
  - rewrite (delitem_unfold item fs s' Hfs'). by apply delitem_loop_absent.
Qed.

Lemma delitem_then_absent_witness :
  TagParser.has_key "android_loop"
    (TagParser.__delitem__ "android_loop" (Demo.parser, [])).2
  = (Ok false, (TagParser.__delitem__ "android_loop" (Demo.parser, [])).2).
Proof.
  exact (proj1 (delitem_then_absent (builtins := Demo.builtins) "android_loop"
                  ["ANDROID_LOOP"; "LOOP"] (Demo.parser, []) eq_refl)).
Defined.

Lemma first_present_agree (e e' : Entry) (fs : list string) :
  (∀ f, f ∈ fs → entry_get e' f = entry_get e f) →
  Spec.first_present e' fs = Spec.first_present e fs.
Proof.
  unfold Spec.first_present. induction fs as [|f fs IH]; intros Hagree; [done|].
  simpl. rewrite (Hagree f) by (by left).
  destruct (entry_get e f) as [v|] eqn:Hget; simpl.
  - rewrite (Hagree f) by (by left). by rewrite Hget.
  - apply IH. intros g Hg. apply Hagree. by right.
Qed.

(** X3. [__delitem__] touches nothing but the candidate fields of its
    tag: every other native field keeps its content, the file and the tag
    map stay, no effect is performed, and a tag whose candidate fields are
    all different from the deleted ones reads as before. *)
Theorem delitem_frames_other_tags {builtins : Builtins}
    (item other : string) (fs gs : list string) (s : TagParser.St) :
  TagParser.tag2fields_loop (TagParser.tag_map s.1) item = Some fs →
  TagParser.tag2fields_loop (TagParser.tag_map s.1) other = Some gs →
  (∀ g, g ∈ gs → g ∉ fs) →
  let s' := (TagParser.__delitem__ item s).2 in
  (∀ g, g ∉ fs →
     entry_get (TagParser.entry s'.1) g = entry_get (TagParser.entry s.1) g)
  ∧ s'.2 = s.2
  ∧ (TagParser.__getitem__ other s').1 = (TagParser.__getitem__ other s).1.
Proof.
  intros Hfs Hgs Hdisj s'.
  set (s1 := (TagParser.set_modified
                (TagParser.modified s.1
                 || bool_decide
                      (Exists (λ f, f ∈ entry_keys (TagParser.entry s.1)) fs))
                (TagParser.set_entry (foldl entry_del (TagParser.entry s.1) fs) s.1),
              s.2)).
  assert (s' = s1) as ->.
  { unfold s'. by rewrite (delitem_unfold item fs s Hfs), delitem_loop_closed_form. }
  assert (TagParser.tag2fields_loop (TagParser.tag_map s1.1) other = Some gs)
    as Hgs1 by exact Hgs.
  split; [|split; [done|]].
  - intros g Hg. simpl. by rewrite entry_get_foldl_del, decide_False.
  - rewrite (getitem_runs_spec_get other gs s1 Hgs1),
      (getitem_runs_spec_get other gs s Hgs); simpl.
    unfold Spec.get; simpl.
    rewrite (first_present_agree (TagParser.entry s.1)); [done|].
    intros g Hg. rewrite entry_get_foldl_del, decide_False; [done|].
    apply Hdisj. by rewrite <- (tag2fields_loop_candidates _ _ _ Hgs).
Qed.

Lemma delitem_frames_other_tags_witness :
  (TagParser.__getitem__ (builtins := Demo.builtins) "title"
     (TagParser.__delitem__ "android_loop" (Demo.parser, [])).2).1
  = (TagParser.__getitem__ (builtins := Demo.builtins) "title" (Demo.parser, [])).1.
Proof.
  refine (proj2 (proj2 (delitem_frames_other_tags (builtins := Demo.builtins)
                          "android_loop" "title" ["ANDROID_LOOP"; "LOOP"] ["TIT2"]
                          (Demo.parser, []) eq_refl eq_refl _))).
  intros g Hg. apply list_elem_of_singleton in Hg as ->.
  intros Hin. repeat (apply elem_of_cons in Hin as [Hin|Hin]; [discriminate|]).
  by apply elem_of_nil in Hin.
Defined.

(** ** [get_tag] and [items] in terms of [__getitem__] *)

Lemma flatten_tag_resolved {builtins : Builtins}
    (tag : string) (fs : list string) (s : TagParser.St) :
  TagParser.tag2fields_loop (TagParser.tag_map s.1) tag = Some fs →
  TagParser.__flatten_tag__ tag s
  = (match Spec.get s.1 tag with
     | Ok (v :: _) => Ok (Some v)
     | Ok [] => Ok None
     | Raise (KeyError _) => Ok None
     | Raise e => Raise e
     end, s).
Proof.
  intros Hfs.
  unfold TagParser.__flatten_tag__, TagParser.bind at 1, TagParser.catch,
    TagParser.bind at 1.
  rewrite (getitem_runs_spec_get tag fs s Hfs).
  destruct (Spec.get s.1 tag) as [[|v vs]|[]]; done.
Qed.

Lemma get_tag_resolved {builtins : Builtins}
    (item : string) (fs : list string) (s : TagParser.St) :
  TagParser.tag2fields_loop (TagParser.tag_map s.1) item = Some fs →
  TagParser.get_tag item s
  = (match Spec.get s.1 item with
     | Ok (v :: _) => Ok v
     | Ok [] => Raise (TagError ("No such string tag: " +:+ item))
     | Raise (KeyError _) => Raise (TagError ("No such tag: " +:+ item))
     | Raise e => Raise e
     end, s).
Proof.
  intros Hfs.
  unfold TagParser.get_tag, TagParser.bind at 1.
  rewrite (has_key_resolved item fs s Hfs).
  destruct (decide (Exists (λ f, f ∈ entry_keys (TagParser.entry s.1)) fs))
    as [Hex|Hno].
  - rewrite bool_decide_eq_true_2 by done; simpl.
    unfold TagParser.bind. rewrite (flatten_tag_resolved item fs s Hfs).
    destruct (Spec.get s.1 item) as [[|v vs]|e] eqn:Hget; try done.
    destruct e; try done.
    assert (fields = fs) as ->.
    { revert Hget. unfold Spec.get.
      rewrite (tag2fields_loop_candidates _ _ _ Hfs).
      destruct (Spec.first_present _ fs) as [[field [v|vs]]|].
      - intros Hk. by apply coerce_all_not_key_error in Hk.
      - intros Hk. by apply coerce_all_not_key_error in Hk.
      - by intros [= ->]. }
    by apply (spec_get_key_error s.1 item fs Hfs) in Hget.
  - rewrite bool_decide_eq_false_2 by done; simpl.
    apply (spec_get_key_error s.1 item fs Hfs) in Hno. by rewrite Hno.
Qed.

(** X4. For a tag name the map resolves, [get_tag] leaves the parser as it
    was and answers from what [__getitem__] gives: the first element of
    its list; the [TagError] "No such string tag" when the list is empty;
    the [TagError] "No such tag" when [__getitem__] raises [KeyError];
    and any other error of [__getitem__] (a decoding [TagError]) as it is. *)
Theorem get_tag_is_first_of_getitem {builtins : Builtins}
    (item : string) (fs : list string) (s : TagParser.St) :
  TagParser.tag2fields_loop (TagParser.tag_map s.1) item = Some fs →
  TagParser.get_tag item s
  = (match (TagParser.__getitem__ item s).1 with
     | Ok (v :: _) => Ok v
     | Ok [] => Raise (TagError ("No such string tag: " +:+ item))
     | Raise (KeyError _) => Raise (TagError ("No such tag: " +:+ item))
     | Raise e => Raise e
     end, s).
Proof.
  intros Hfs.
  rewrite (getitem_runs_spec_get item fs s Hfs); simpl.
  by apply (get_tag_resolved item fs).
Qed.

Lemma get_tag_is_first_of_getitem_witness :
  TagParser.get_tag (builtins := Demo.builtins) "title" (Demo.parser, [])
  = (Ok "Song", (Demo.parser, [])).
Proof.
  exact (get_tag_is_first_of_getitem (builtins := Demo.builtins) "title"
           ["TIT2"] (Demo.parser, []) eq_refl).
Defined.

Lemma keys_closed_form {constants : TagConstants} (s : TagParser.St) :
  TagParser.keys s
  = (Ok (TagParser.sort_keys
           (TagParser.field2tag_loop (TagParser.tag_map s.1)
              <$> entry_keys (TagParser.entry s.1))), s).
Proof.
  unfold TagParser.keys, TagParser.bind at 1, TagParser.gets at 1; simpl.
  unfold TagParser.bind at 1. by rewrite comprehension_field2tag.
Qed.

Lemma flatten_tag_some_get_tag {builtins : Builtins}
    (tag v : string) (s s' : TagParser.St) :
  TagParser.__flatten_tag__ tag s = (Ok (Some v), s') →
  TagParser.get_tag tag s = (Ok v, s).
Proof.
  destruct (TagParser.tag2fields_loop (TagParser.tag_map s.1) tag) as [fs|] eqn:Hfs.
  - rewrite (flatten_tag_resolved tag fs s Hfs), (get_tag_resolved tag fs s Hfs).
    destruct (Spec.get s.1 tag) as [[|v0 vs]|[]]; try done.
    by intros [= -> _].
  - unfold TagParser.__flatten_tag__, TagParser.bind at 1, TagParser.catch,
      TagParser.bind at 1, TagParser.__getitem__, TagParser.bind at 1,
      TagParser.__tag2fields__, TagParser.bind at 1, TagParser.gets,
      TagParser.ret; simpl.
    by rewrite Hfs.
Qed.

Lemma items_loop_agree {builtins : Builtins} (ks : list string)
    (acc l : list (string * string)) (s s' : TagParser.St) :
  TagParser.items_loop ks acc s = (Ok l, s') →
  s' = s
  ∧ (length l ≤ length acc + length ks)%nat
  ∧ ∀ tag v, (tag, v) ∈ l →
      (tag, v) ∈ acc ∨ (tag ∈ ks ∧ TagParser.get_tag tag s = (Ok v, s)).
Proof.
  revert acc. induction ks as [|k ks IH]; intros acc; simpl.
  - intros [= <- <-]. split; [done|]. split; [lia|]. by left.
  - unfold TagParser.bind at 1.
    pose proof (readonly_flatten_tag k s) as Hro. unfold readonly, preserves in Hro.
    destruct (TagParser.__flatten_tag__ k s) as [[[v|]|e] s1] eqn:Hflat;
      simpl in Hro; subst s1; [| |done].
    + intros Hloop. destruct (IH _ Hloop) as (-> & Hlen & Hmem).
      split; [done|]. split; [rewrite length_app in Hlen; simpl in *; lia|].
      intros tag w Hin. destruct (Hmem tag w Hin) as [Hacc|[Hks Hget]].
      * apply elem_of_app in Hacc as [?|Hnew]; [by left|].
        apply list_elem_of_singleton in Hnew as [= -> ->].
        right. split; [by left|]. by eapply flatten_tag_some_get_tag.
      * right. split; [by right|done].
    + intros Hloop. destruct (IH _ Hloop) as (-> & Hlen & Hmem).
      split; [done|]. split; [lia|].
      intros tag w Hin. destruct (Hmem tag w Hin) as [?|[Hks Hget]]; [by left|].
      right. split; [by right|done].
Qed.

(** X5. When [items()] returns, the parser is as it was, there are at
    most as many pairs as [keys()] has names, and every pair it lists is a
    name of [keys()] with the very value [get_tag] returns for it. *)
Theorem items_agree_with_get_tag {builtins : Builtins} {constants : TagConstants}
    (l : list (string * string)) (s s' : TagParser.St) :
  TagParser.items s = (Ok l, s') →
  s' = s
  ∧ ∃ ks, TagParser.keys s = (Ok ks, s)
          ∧ (length l ≤ length ks)%nat
          ∧ ∀ tag v, (tag, v) ∈ l →
              tag ∈ ks ∧ TagParser.get_tag tag s = (Ok v, s).
Proof.
  unfold TagParser.items, TagParser.bind. rewrite keys_closed_form.
  intros Hloop. destruct (items_loop_agree _ _ _ _ _ Hloop) as (-> & Hlen & Hmem).
  split; [done|]. eexists. split; [done|]. split; [simpl in Hlen; lia|].
  intros tag v Hin. destruct (Hmem tag v Hin) as [?%elem_of_nil|?]; done.
Qed.

Lemma items_agree_with_get_tag_witness :
  TagParser.get_tag (builtins := Demo.builtins) "artist" (Demo.parser, [])
  = (Ok "Abba", (Demo.parser, [])).
Proof.
  destruct (items_agree_with_get_tag (builtins := Demo.builtins)
              (constants := Demo.constants)
              [("artist", "Abba"); ("title", "Song");
               ("android_loop", "1"); ("android_loop", "1")]
              (Demo.parser, []) (Demo.parser, []) eq_refl)
    as (_ & ks & _ & _ & Hall).
  refine (proj2 (Hall "artist" "Abba" _)). by left.
Defined.

(** ** The reading methods never write *)

Lemma readonly_keys {constants : TagConstants} : readonly TagParser.keys.
Proof. intros s. by rewrite keys_closed_form. Qed.

Lemma readonly_items_loop {builtins : Builtins} ks acc :
  readonly (TagParser.items_loop ks acc).
Proof.
  revert acc. induction ks as [|k ks IH]; intros acc; simpl; [readonly_step|].
  readonly_step; [apply readonly_flatten_tag|].
  destruct a; apply IH.
Qed.

Lemma readonly_values_loop {builtins : Builtins} ks acc :
  readonly (TagParser.values_loop ks acc).
Proof.
  revert acc. induction ks as [|k ks IH]; intros acc; simpl; [readonly_step|].
  readonly_step; [apply readonly_flatten_tag|].
  destruct a; apply IH.
Qed.

Lemma readonly_getattr {builtins : Builtins} attr :
  readonly (TagParser.__getattr__ attr).
Proof.
  unfold TagParser.__getattr__.
  readonly_step; [apply readonly_getitem|readonly_step].
Qed.

Lemma readonly_get_albumart {builtins : Builtins} :
  readonly TagParser.get_albumart.
Proof.
  unfold TagParser.get_albumart.
  readonly_step; [readonly_step|].
  destruct (negb a); [readonly_step|].
  readonly_step; [readonly_step|].
  destruct a0; [readonly_step|].
  readonly_step.
  - unfold readonly. apply preserves_catch.
    + readonly_step; [apply readonly_getattr|readonly_step].
    + intros e k [= <-]. readonly_step.
  - destruct (negb _); [readonly_step|].
    readonly_step; [apply readonly_getattr|readonly_step].
Qed.

(** X6. Reading never writes: [__getitem__], [__getattr__], [has_key],
    [get_tag], [keys], [items], [values] and the [get_albumart] property
    leave the parser object and the trace of effects exactly as they found
    them, whether they return or raise. *)
Theorem reading_methods_are_readonly {builtins : Builtins}
    {constants : TagConstants} (name : string) :
  readonly (TagParser.__getitem__ name)
  ∧ readonly (TagParser.__getattr__ name)
  ∧ readonly (TagParser.has_key name)
  ∧ readonly (TagParser.get_tag name)
  ∧ readonly TagParser.keys
  ∧ readonly TagParser.items
  ∧ readonly TagParser.values
  ∧ readonly TagParser.get_albumart.
Proof.
  repeat split.
  - apply readonly_getitem.
  - apply readonly_getattr.
  - apply readonly_has_key.
  - apply readonly_get_tag.
  - apply readonly_keys.
  - unfold TagParser.items. readonly_step; [apply readonly_keys|].
    apply readonly_items_loop.
  - unfold TagParser.values. readonly_step; [apply readonly_keys|].
    apply readonly_values_loop.
  - apply readonly_get_albumart.
Qed.

(** X7. The [get_albumart] property never raises.  It answers [None]
    when the parser does not support artwork; the artwork object when one
    is assigned; and otherwise, since [hasattr] and the final read both
    fall through to [__getattr__], the text values of a tag named
    [albumart] when the entry has one, [None] when reading it fails. *)
Theorem get_albumart_never_raises {builtins : Builtins} (s : TagParser.St) :
  TagParser.get_albumart s
  = (Ok (if negb (TagParser.supports_albumart s.1) then None
         else match TagParser.albumart s.1 with
              | Some art => Some (inl art)
              | None =>
                  match (TagParser.__getitem__ "albumart" s).1 with
                  | Ok v => Some (inr v)
                  | Raise _ => None
                  end
              end), s).
Proof.
  unfold TagParser.get_albumart, TagParser.bind at 1, TagParser.gets at 1; simpl.
  destruct (TagParser.supports_albumart s.1); simpl; [|done].
  unfold TagParser.bind at 1, TagParser.gets at 1; simpl.
  destruct (TagParser.albumart s.1) as [art|]; simpl; [done|].
  unfold TagParser.bind at 1, TagParser.catch, TagParser.bind at 1.
  pose proof (readonly_getitem "albumart" s) as Hro.
  unfold readonly, preserves in Hro.
  assert (TagParser.__getattr__ "albumart" s
          = (match (TagParser.__getitem__ "albumart" s).1 with
             | Ok v => Ok v
             | Raise (KeyError _) =>
                 Raise (AttributeError "No such TagParser attribute: albumart")
             | Raise e => Raise e
             end, s)) as Hattr.
  { unfold TagParser.__getattr__, TagParser.catch.
    destruct (TagParser.__getitem__ "albumart" s) as [[v|e] s1];
      simpl in Hro; subst s1; simpl; [done|]. by destruct e. }
  rewrite Hattr.
  destruct (TagParser.__getitem__ "albumart" s).1 as [v|e]; simpl.
  - unfold TagParser.bind. by rewrite Hattr.
  - by destruct e.
Qed.

(** ** [sort_keys] as an ordering *)

Lemma filter_nothing {A} (P : A → Prop) `{∀ x, Decision (P x)} (l : list A) :
  Forall (λ x, ¬ P x) l → filter P l = [].
Proof.
  induction 1 as [|x l Hx Hl IH]; [done|].
  by rewrite filter_cons, decide_False.
Qed.

Lemma filter_everything {A} (P : A → Prop) `{∀ x, Decision (P x)} (l : list A) :
  Forall P l → filter P l = l.
Proof.
  induction 1 as [|x l Hx Hl IH]; [done|].
  by rewrite filter_cons, decide_True, IH.
Qed.

(** X8. [sort_keys] is idempotent: sorting a sorted key list gives it
    back. *)
Theorem sort_keys_idempotent {constants : TagConstants} (ks : list string) :
  TagParser.sort_keys (TagParser.sort_keys ks) = TagParser.sort_keys ks.
Proof.
  rewrite (sort_keys_filter (TagParser.sort_keys ks)).
  rewrite (list_filter_iff (λ k, k ∈ TagParser.sort_keys ks) (λ k, k ∈ ks))
    by (intros k; apply sort_keys_elem_of).
  rewrite (sort_keys_filter ks) at 1. rewrite filter_app.
  rewrite (filter_nothing (λ k, k ∉ STANDARD_TAG_ORDER)
             (filter (λ k, k ∈ ks) STANDARD_TAG_ORDER)).
  - rewrite (filter_everything (λ k, k ∉ STANDARD_TAG_ORDER)
               (filter (λ k, k ∉ STANDARD_TAG_ORDER) ks)).
    + by rewrite sort_keys_filter.
    + apply Forall_forall. by intros k [? _]%list_elem_of_filter.
  - apply Forall_forall. intros k [_ Hk]%list_elem_of_filter Hno. by apply Hno.
Qed.

(** X9. When neither the standard ordering list nor the key list repeats
    a name, [sort_keys] only reorders: its result is a permutation of the
    keys, again without repetition. *)
Theorem sort_keys_is_permutation {constants : TagConstants} (ks : list string) :
  NoDup STANDARD_TAG_ORDER → NoDup ks →
  TagParser.sort_keys ks ≡ₚ ks ∧ NoDup (TagParser.sort_keys ks).
Proof.
  intros Hstd Hks.
  assert (NoDup (TagParser.sort_keys ks)) as Hnd.
  { rewrite sort_keys_filter. apply NoDup_app. split; [by apply NoDup_filter|].
    split; [|by apply NoDup_filter].
    intros k [_ Hin]%list_elem_of_filter [Hout _]%list_elem_of_filter.
    by apply Hout. }
  split; [|done].
  apply NoDup_Permutation; [done..|]. apply sort_keys_elem_of.
Qed.

Lemma sort_keys_is_permutation_witness :
  TagParser.sort_keys (constants := Demo.constants) ["zz"; "title"; "artist"]
  ≡ₚ ["zz"; "title"; "artist"].
Proof.
  refine (proj1 (sort_keys_is_permutation (constants := Demo.constants)
                   ["zz"; "title"; "artist"] _ _)).
  - apply (bool_decide_unpack _). by vm_compute.
  - apply (bool_decide_unpack _). by vm_compute.
Defined.

(** ** [update_tags] and [__setitem__] when a step fails *)

Lemma for_each_app {A} (l1 l2 : list A) (body : A → TagParser.M unit)
    (s : TagParser.St) :
  TagParser.for_each (l1 ++ l2) body s
  = TagParser.bind (TagParser.for_each l1 body)
      (λ _, TagParser.for_each l2 body) s.
Proof.
  revert s. induction l1 as [|x l1 IH]; intros s; simpl; [done|].
  unfold TagParser.bind.
  destruct (body x s) as [[[]|e] s1]; [|done].
  by rewrite IH.
Qed.

(** X10. [update_tags] stops at the first pair whose [set_tag] raises:
    the pairs before it have been set, the error is the one [set_tag]
    raised, the state is the one it left, and no later pair is printed or
    set. *)
Theorem update_tags_stops_at_first_failure {codec : TagParser.Codec}
    (kvs1 kvs2 : list (pyobj * pyobj)) (k v : pyobj) (e : exn)
    (s s1 s2 : TagParser.St) :
  set_each kvs1 s s1 →
  TagParser.set_tag k v (s1.1, s1.2 ++ [TagParser.Print k v]) = (Raise e, s2) →
  TagParser.update_tags (PDict (kvs1 ++ (k, v) :: kvs2)) s = (Raise e, s2).
Proof.
  intros Hbefore Hfail. apply for_each_set_each in Hbefore.
  unfold TagParser.update_tags, TagParser.bind at 1.
  rewrite for_each_app. unfold TagParser.bind at 1. rewrite Hbefore.
  simpl. unfold TagParser.bind at 1 2, TagParser.emit; simpl.
  by rewrite Hfail.
Qed.

Lemma update_tags_stops_at_first_failure_witness :
  TagParser.update_tags (codec := Demo.base_codec)
    (PDict [(PStr "artist", PStr "Abba"); (PStr "album", PStr "Waterloo")])
    (Demo.parser, [])
  = (Raise (NotImplementedError "Must implement set_tag in child"),
     (Demo.parser, [TagParser.Print (PStr "artist") (PStr "Abba")])).
Proof.
  exact (update_tags_stops_at_first_failure (codec := Demo.base_codec)
           [] [(PStr "album", PStr "Waterloo")] (PStr "artist") (PStr "Abba")
           _ (Demo.parser, []) (Demo.parser, []) _
           (set_each_nil _) eq_refl).
Defined.

Lemma import_albumart_raise_cases (value : pyobj) (art : TrackAlbumart.t) (e : exn) :
  (TrackAlbumart.import_albumart value art).1 = Raise e →
  (TrackAlbumart.import_albumart value art).2 = art ∧ ∃ msg, e = TagError msg.
Proof.
  destruct value as [| | | | | |a]; simpl; try (intros [= <-]; by eauto).
  destruct (is_loaded a); simpl; [done|]. intros [= <-]. by eauto.
Qed.

(** X11. With an [AlbumArt] as the key and an artwork object on the
    parser, [__setitem__] first imports the value.  When the import
    raises, that [TagError] is raised with the parser as it was and
    [set_tag] is never called; when the import succeeds, the key and the
    value are still handed to [set_tag], which runs on the parser holding
    the imported artwork. *)
Theorem setitem_artwork_key_imports_then_sets {builtins : Builtins}
    {codec : TagParser.Codec} (key : AlbumArt) (value : pyobj)
    (art : TrackAlbumart.t) (s : TagParser.St) :
  TagParser.albumart s.1 = Some art →
  TagParser.__setitem__ (PAlbumArt key) value s
  = match (TrackAlbumart.import_albumart value art).1 with
    | Ok _ =>
        TagParser.set_tag (PAlbumArt key) value
          (TagParser.set_albumart
             (Some (TrackAlbumart.import_albumart value art).2) s.1, s.2)
    | Raise e => (Raise e, s)
    end.
Proof.
  intros Hart.
  unfold TagParser.__setitem__, TagParser.bind at 1, TagParser.setitem_import,
    TagParser.catch, TagParser.bind at 1, TagParser.getattr_albumart,
    TagParser.bind at 1, TagParser.gets at 1; simpl.
  rewrite Hart; simpl.
  unfold TagParser.bind at 1, TagParser.modify; simpl.
  destruct (TrackAlbumart.import_albumart value art).1 as [[]|e] eqn:Himp; simpl.
  - done.
  - destruct (import_albumart_raise_cases value art e Himp) as [-> [msg ->]].
    simpl. destruct s as [p io]; simpl in *. f_equal. f_equal.
    destruct p; simpl in *. by subst.
Qed.

Lemma setitem_artwork_key_imports_then_sets_witness :
  TagParser.__setitem__ (builtins := Demo.builtins) (codec := Demo.base_codec)
    (PAlbumArt Demo.loaded_art) (PStr "not an image") (Demo.art_parser, [])
  = (Raise (TagError "Albumart must be AlbumArt instance"), (Demo.art_parser, [])).
Proof.
  exact (setitem_artwork_key_imports_then_sets (builtins := Demo.builtins)
           (codec := Demo.base_codec) Demo.loaded_art (PStr "not an image")
           TrackAlbumart.__init__ (Demo.art_parser, []) eq_refl).
Defined.

(** ** [TrackAlbumart] *)

(** X12. [import_albumart] succeeds exactly on an [AlbumArt] that is
    loaded; then [defined()] answers [True] and the stored payload is the
    imported one, replacing any earlier payload.  When it raises,
    [defined()] answers as before; a fresh object is not defined. *)
Theorem import_albumart_defines (a : pyobj) (self : TrackAlbumart.t) :
  ((TrackAlbumart.import_albumart a self).1 = Ok tt
   ↔ ∃ art, a = PAlbumArt art ∧ is_loaded art = true)
  ∧ (∀ art, a = PAlbumArt art → is_loaded art = true →
       TrackAlbumart.defined (TrackAlbumart.import_albumart a self).2 = true
       ∧ TrackAlbumart.albumart (TrackAlbumart.import_albumart a self).2 = Some art)
  ∧ (∀ e, (TrackAlbumart.import_albumart a self).1 = Raise e →
       TrackAlbumart.defined (TrackAlbumart.import_albumart a self).2
       = TrackAlbumart.defined self)
  ∧ TrackAlbumart.defined TrackAlbumart.__init__ = false.
Proof.
  split; [|split; [|split; [|done]]].
  - split.
    + destruct a as [| | | | | |art]; simpl; try done.
      destruct (is_loaded art) eqn:Hl; simpl; [|done]. by exists art.
    + intros (art & -> & Hl). simpl. by rewrite Hl.
  - intros art -> Hl. simpl. by rewrite Hl.
  - intros e He. by destruct (import_albumart_raise_cases a self e He) as [-> _].
Qed.

(** ** [TrackNumberingTag]: what is stored and how it reads back *)

Lemma numbering_init_well_formed (track : pyobj) (tag : string) :
  TrackNumberingTag.well_formed (TrackNumberingTag.__init__ track tag).
Proof.
  unfold TrackNumberingTag.well_formed, TrackNumberingTag.__init__.
  rewrite !lookup_insert_ne by done. rewrite !lookup_empty.
  rewrite !lookup_insert_eq. by eauto.
Qed.

Lemma numbering_insert_slot_well_formed (slot : string) (v : pyobj)
    (self : gmap string pyobj) :
  slot ≠ "value" → slot ≠ "total" →
  TrackNumberingTag.well_formed self →
  TrackNumberingTag.well_formed (<[slot := v]> self).
Proof.
  intros Hv Ht (Hvalue & Htotal & Hfv & Hft).
  unfold TrackNumberingTag.well_formed.
  rewrite !lookup_insert_ne by done.
  split; [done|]. split; [done|].
  split; rewrite lookup_insert; case_decide; by eauto.
Qed.

Lemma numbering_setattr_well_formed {builtins : Builtins}
    (attr : string) (value : pyobj) (self : gmap string pyobj) :
  attr ≠ "__dict__" →
  TrackNumberingTag.well_formed self →
  TrackNumberingTag.well_formed (TrackNumberingTag.__setattr__ attr value self).2.
Proof.
  intros Hdict Hwf.
  destruct (decide (attr ∈ ["value"; "total"])) as [Hattr|Hattr].
  - rewrite (setattr_numbering_unfold attr value self Hattr).
    assert (TrackNumberingTag.slot_of attr ≠ "value"
            ∧ TrackNumberingTag.slot_of attr ≠ "total") as [Hv Ht].
    { unfold TrackNumberingTag.slot_of. by case_decide. }
    destruct (TrackNumberingTag.contributed value) as [v0|]; [|done].
    destruct v0; simpl; try done;
      try (by apply numbering_insert_slot_well_formed);
      match goal with
      | |- context [match ?r with Ok _ => _ | Raise _ => _ end] =>
          destruct r; simpl; [by apply numbering_insert_slot_well_formed|done]
      end.
  - unfold TrackNumberingTag.__setattr__, TrackNumberingTag.object_setattr.
    rewrite (decide_False (P := attr ∈ _)), (decide_False (P := attr = "__dict__"))
      by done.
    repeat case_decide; simpl; [done..|].
    apply numbering_insert_slot_well_formed; [| |done].
    + intros ->. apply Hattr. by left.
    + intros ->. apply Hattr. right. by left.
Qed.

(** Assigning a dictionary to [__dict__] replaces the instance dictionary,
    whatever it held. *)
Lemma numbering_dict_assignment_replaces {builtins : Builtins}
    (kvs : list (pyobj * pyobj)) (self : gmap string pyobj) :
  TrackNumberingTag.__setattr__ "__dict__" (PDict kvs) self
  = (Ok tt, TrackNumberingTag.instance_dict kvs).
Proof. reflexivity. Qed.

Lemma numbering_attr_cases (attr : string) :
  attr ∈ ["value"; "total"] → attr = "value" ∨ attr = "total".
Proof.
  intros [->|Hattr]%elem_of_cons; [by left|].
  apply list_elem_of_singleton in Hattr. by right.
Qed.

Lemma numbering_getattr_slot (attr : string) (self : gmap string pyobj) :
  attr ∈ ["value"; "total"] →
  TrackNumberingTag.well_formed self →
  ∃ v, self !! TrackNumberingTag.slot_of attr = Some v
       ∧ TrackNumberingTag.__getattr__ attr self = Ok v.
Proof.
  intros Hattr (Hvalue & Htotal & [fv Hfv] & [ft Hft]).
  apply elem_of_cons in Hattr as [->|Hattr].
  - exists fv. split; [done|]. unfold TrackNumberingTag.__getattr__.
    rewrite Hvalue. simpl. by rewrite Hfv.
  - apply list_elem_of_singleton in Hattr as ->.
    exists ft. split; [done|]. unfold TrackNumberingTag.__getattr__.
    rewrite Htotal. simpl. by rewrite Hft.
Qed.



Lemma numbering_setattr_accepted {builtins : Builtins}
    (attr : string) (value : pyobj) (self self' : gmap string pyobj) :
  attr ∈ ["value"; "total"] →
  TrackNumberingTag.__setattr__ attr value self = (Ok tt, self') →
  ∃ v0 stored,
    TrackNumberingTag.contributed value = Some v0
    ∧ ((v0 = PNone ∧ stored = PNone)
       ∨ (∃ n, v0 ≠ PNone ∧ TrackNumberingTag.int v0 = Ok n ∧ stored = PInt n))
    ∧ self' = <[TrackNumberingTag.slot_of attr := stored]> self.
Proof.
  intros Hattr Hset.
  rewrite (setattr_numbering_unfold attr value self Hattr) in Hset.
  destruct (TrackNumberingTag.contributed value) as [v0|]; [|done].
  exists v0.
  destruct v0 as [|z|b|u|l|kvs|a]; lazy iota beta in Hset;
    try (exists PNone; split; [done|]; split; [by left|congruence]);
    match type of Hset with
    | context [TrackNumberingTag.int ?v] =>
        destruct (TrackNumberingTag.int v) as [m|e] eqn:Hint; [|done];
        exists (PInt m); split; [done|]; split; [|congruence];
        right; exists m; by repeat split
    end.
Qed.

(** X14. Round trip on a well-formed object.  After an accepted assignment
    to [value] or [total], the slot of that attribute holds, and reading
    the attribute returns, exactly what the assigned object contributed:
    [None] for a contributed [None], and otherwise the integer [int()]
    makes of it (the integer itself for an integer).  The other of the
    two attributes reads as before. *)
Theorem numbering_assignment_reads_back {builtins : Builtins}
    (attr other : string) (value : pyobj) (self self' : gmap string pyobj) :
  TrackNumberingTag.well_formed self →
  attr ∈ ["value"; "total"] → other ∈ ["value"; "total"] → other ≠ attr →
  TrackNumberingTag.__setattr__ attr value self = (Ok tt, self') →
  (∃ v0 stored,
     TrackNumberingTag.contributed value = Some v0
     ∧ ((v0 = PNone ∧ stored = PNone)
        ∨ (∃ n, v0 ≠ PNone ∧ TrackNumberingTag.int v0 = Ok n
                ∧ stored = PInt n))
     ∧ self' !! TrackNumberingTag.slot_of attr = Some stored
     ∧ TrackNumberingTag.__getattr__ attr self' = Ok stored)
  ∧ (∀ n, value = PInt n →
          TrackNumberingTag.__getattr__ attr self' = Ok (PInt n))
  ∧ TrackNumberingTag.__getattr__ other self'
    = TrackNumberingTag.__getattr__ other self.
Proof.
  intros Hwf Hattr Hother Hne Hset.
  assert (attr ≠ "__dict__") as Hdict
    by (destruct (numbering_attr_cases attr Hattr) as [->| ->]; done).
  assert (TrackNumberingTag.well_formed self') as Hwf'.
  { replace self' with (TrackNumberingTag.__setattr__ attr value self).2
      by (by rewrite Hset).
    by apply numbering_setattr_well_formed. }
  destruct (numbering_setattr_accepted attr value self self' Hattr Hset)
    as (v0 & stored & Hc & Hstored & ->).
  assert (TrackNumberingTag.__getattr__ attr
            (<[TrackNumberingTag.slot_of attr := stored]> self) = Ok stored)
    as Hread.
  { destruct (numbering_getattr_slot attr _ Hattr Hwf') as (v & Hslot & ->).
    rewrite lookup_insert_eq in Hslot. by injection Hslot as ->. }
  split; [|split].
  - exists v0, stored. split; [done|]. split; [done|].
    split; [by rewrite lookup_insert_eq|done].
  - intros n ->. rewrite Hread. simpl in Hc. injection Hc as <-.
    destruct Hstored as [[? _]|(m & _ & Hint & ->)]; [done|].
    simpl in Hint. by injection Hint as ->.
  - destruct (numbering_getattr_slot other _ Hother Hwf') as (v & Hslot & ->).
    destruct (numbering_getattr_slot other _ Hother Hwf) as (w & Hslot0 & ->).
    rewrite lookup_insert_ne in Hslot; [by simplify_eq|].
    destruct (numbering_attr_cases attr Hattr) as [->| ->];
      destruct (numbering_attr_cases other Hother) as [->| ->]; done.
Qed.

Lemma numbering_assignment_reads_back_witness :
  TrackNumberingTag.__getattr__ "total"
    (<["f_value" := PInt 12]> (TrackNumberingTag.__init__ PNone "tracknumber"))
  = TrackNumberingTag.__getattr__ "total"
      (TrackNumberingTag.__init__ PNone "tracknumber").
Proof.
  refine (proj2 (proj2 (numbering_assignment_reads_back (builtins := Demo.builtins)
                   "value" "total" (PList [PUnicode "12"])
                   (TrackNumberingTag.__init__ PNone "tracknumber") _
                   (numbering_init_well_formed _ _) _ _ _ eq_refl))).
  - apply elem_of_cons. by left.
  - apply elem_of_cons. right. apply elem_of_cons. by left.
  - done.
Defined.

Lemma numbering_repr_slots (self : gmap string pyobj) (value total : pyobj) :
  TrackNumberingTag.well_formed self →
  self !! "f_value" = Some value → self !! "f_total" = Some total →
  TrackNumberingTag.__repr__ self
  = match total with
    | PNone => TrackNumberingTag.percent_d value
    | _ =>
        match TrackNumberingTag.percent_d value with
        | Raise e => Raise e
        | Ok a => result_map (λ b, a +:+ "/" +:+ b)
                    (TrackNumberingTag.percent_d total)
        end
    end.
Proof.
  intros (Hvalue & Htotal & _ & _) Hfv Hft.
  unfold TrackNumberingTag.__repr__, TrackNumberingTag.__getattr__.
  rewrite Hvalue, Htotal; simpl. rewrite Hfv, Hft. by destruct total.
Qed.

(** X15. [repr] after assignments on a well-formed object: with [value]
    set to the integer [n] and [total] to [m] it is the two decimals
    joined by a slash; with [total] set to [None] it is the decimal of
    [n] alone; and once [value] is [None] it raises [TypeError], whatever
    [total] holds. *)
Theorem numbering_repr_after_assignments {builtins : Builtins}
    (self : gmap string pyobj) (n m : Z) :
  TrackNumberingTag.well_formed self →
  TrackNumberingTag.__repr__
    (TrackNumberingTag.__setattr__ "total" (PInt m)
       (TrackNumberingTag.__setattr__ "value" (PInt n) self).2).2
  = Ok (format_d n +:+ "/" +:+ format_d m)
  ∧ TrackNumberingTag.__repr__
      (TrackNumberingTag.__setattr__ "total" PNone
         (TrackNumberingTag.__setattr__ "value" (PInt n) self).2).2
    = Ok (format_d n)
  ∧ ∃ msg, TrackNumberingTag.__repr__
             (TrackNumberingTag.__setattr__ "value" PNone self).2
           = Raise (TypeError msg).
Proof.
  intros Hwf.
  change (TrackNumberingTag.__setattr__ "value" (PInt n) self).2
    with (<["f_value" := PInt n]> self).
  change (TrackNumberingTag.__setattr__ "value" PNone self).2
    with (<["f_value" := PNone]> self).
  assert (TrackNumberingTag.well_formed (<["f_value" := PInt n]> self)) as Hwf1
    by (by apply numbering_insert_slot_well_formed).
  split; [|split].
  - change (TrackNumberingTag.__setattr__ "total" (PInt m) ?o).2
      with (<["f_total" := PInt m]> o).
    rewrite (numbering_repr_slots _ (PInt n) (PInt m)); [done| | |].
    + by apply numbering_insert_slot_well_formed.
    + by rewrite lookup_insert_ne, lookup_insert_eq.
    + by rewrite lookup_insert_eq.
  - change (TrackNumberingTag.__setattr__ "total" PNone ?o).2
      with (<["f_total" := PNone]> o).
    rewrite (numbering_repr_slots _ (PInt n) PNone); [done| | |].
    + by apply numbering_insert_slot_well_formed.
    + by rewrite lookup_insert_ne, lookup_insert_eq.
    + by rewrite lookup_insert_eq.
  - destruct Hwf as (Hvalue & Htotal & Hfv & [total Hft]).
    rewrite (numbering_repr_slots _ PNone total).
    + destruct total; simpl; by eauto.
    + apply numbering_insert_slot_well_formed; [done..|].
      by repeat split; eauto.
    + by rewrite lookup_insert_eq.
    + by rewrite lookup_insert_ne.
Qed.

Lemma numbering_repr_after_assignments_witness :
  TrackNumberingTag.__repr__
    (TrackNumberingTag.__setattr__ (builtins := Demo.builtins) "total" (PInt 12)
       (TrackNumberingTag.__setattr__ (builtins := Demo.builtins) "value" (PInt 3)
          (TrackNumberingTag.__init__ PNone "tracknumber")).2).2
  = Ok "3/12".
Proof.
  exact (proj1 (numbering_repr_after_assignments (builtins := Demo.builtins)
                  (TrackNumberingTag.__init__ PNone "tracknumber") 3 12
                  (numbering_init_well_formed _ _))).
Defined.

(** ** More on the instance cache *)

Section cache_more.
Context {env : Tags.Env}.

Lemma tags_init_keeps_entries (p q : string) ff (st : Tags.class_state)
    (r : nat) (inst : Tags.TagParserInstance) :
  Tags.instances st !! q = Some r → Tags.heap st !! r = Some inst →
  Tags.instances (Tags.__init__ p ff st).2 !! q = Some r
  ∧ Tags.heap (Tags.__init__ p ff st).2 !! r = Some inst
  ∧ (size (Tags.instances (Tags.__init__ p ff st).2)
     ≤ S (size (Tags.instances st)))%nat.
Proof.
  intros Hq Hr. unfold Tags.__init__.
  destruct (Tags.instances st !! p) as [r'|] eqn:Hp; simpl.
  - split; [done|]. split; [done|lia].
  - destruct (Tags.TagParserInstance__init__ p ff) as [new|e]; simpl.
    + split; [|split].
      * rewrite lookup_insert_ne; [done|]. intros ->. by rewrite Hp in Hq.
      * by apply lookup_app_l_Some.
      * by rewrite map_size_insert_None.
    + split; [done|]. split; [done|lia].
Qed.

Lemma tags_init_size (p : string) ff (st : Tags.class_state) :
  (size (Tags.instances (Tags.__init__ p ff st).2)
   ≤ S (size (Tags.instances st)))%nat.
Proof.
  unfold Tags.__init__.
  destruct (Tags.instances st !! p) as [r'|] eqn:Hp; simpl; [lia|].
  destruct (Tags.TagParserInstance__init__ p ff) as [new|e]; simpl; [|lia].
  by rewrite map_size_insert_None.
Qed.

(** X16. The cache never evicts and never replaces: through any further
    constructor calls, an entry keeps referring to the same object, the
    object stays in place, and the cache grows by at most one entry per
    call. *)
Theorem tags_cache_never_evicts
    (calls : list (string * option (pyobj + Tags.MusaFileFormat)))
    (st : Tags.class_state) (q : string) (r : nat)
    (inst : Tags.TagParserInstance) :
  Tags.instances st !! q = Some r → Tags.heap st !! r = Some inst →
  Tags.instances (Tags.construct_all calls st) !! q = Some r
  ∧ Tags.heap (Tags.construct_all calls st) !! r = Some inst
  ∧ (size (Tags.instances (Tags.construct_all calls st))
     ≤ size (Tags.instances st) + length calls)%nat.
Proof.
  revert st. induction calls as [|[p ff] calls IH]; intros st Hq Hr; simpl.
  - split; [done|]. split; [done|lia].
  - destruct (tags_init_keeps_entries p q ff st r inst Hq Hr) as (Hq' & Hr' & Hsz).
    destruct (IH _ Hq' Hr') as (? & ? & ?). split; [done|]. split; [done|lia].
Qed.

(** X18. The instance constructor succeeds exactly when the path is a
    file, the format (the one given, or the one the registry finds for
    the path) is a [MusaFileFormat] with a codec, is not a metadata
    format and has a tag parser, and that parser loads the canonical
    path; the instance then holds the canonical path, the format and the
    loaded parser.  A missing file is reported before anything else. *)
Theorem instance_constructor_succeeds_iff (p : string)
    (ff : option (pyobj + Tags.MusaFileFormat))
    (inst : Tags.TagParserInstance) :
  (Tags.TagParserInstance__init__ p ff = Ok inst
   ↔ Tags.isfile p = true
     ∧ ∃ fmt c parser tp,
         (match ff with Some f => f | None => inr (Tags.format_of_path p) end)
         = inr fmt
         ∧ Tags.codec fmt = Some c
         ∧ Tags.is_metadata fmt = false
         ∧ Tags.get_tag_parser fmt = Some parser
         ∧ parser (Some c) (Tags.canonical p) = Ok tp
         ∧ inst = Tags.mkInstance (Tags.canonical p) fmt tp)
  ∧ (Tags.isfile p = false →
     Tags.TagParserInstance__init__ p ff
     = Raise (TagError ("No such file: " +:+ p))).
Proof.
  unfold Tags.TagParserInstance__init__, Tags.load_tags, Tags.canonical.
  split; [|by intros ->].
  destruct (Tags.isfile p); simpl; [|by split; [|intros [? _]]].
  destruct (match ff with Some f => f | None => _ end) as [other|fmt] eqn:Hff.
  { split; [done|]. by intros (_ & ? & ? & ? & ? & ? & _). }
  split.
  - intros Hok. split; [done|].
    destruct (Tags.codec fmt) as [c|] eqn:Hc; [|done].
    destruct (Tags.is_metadata fmt) eqn:Hm; [done|].
    destruct (Tags.get_tag_parser fmt) as [parser|] eqn:Hp; [|done].
    destruct (parser (Some c) _) as [tp|e] eqn:Hload; [|done].
    injection Hok as <-. by exists fmt, c, parser, tp.
  - intros (_ & fmt' & c & parser & tp & [= <-] & Hc & Hm & Hp & Hload & ->).
    by rewrite Hc, Hm, Hp, Hload.
Qed.
End cache_more.

(** X17. The cache is never revalidated: once [Tags(p)] has succeeded,
    constructing [Tags(p)] again succeeds from the cache and changes
    nothing, even in an environment where the file is gone and a fresh
    construction would raise. *)
Theorem tags_cache_hit_skips_validation (env env' : Tags.Env) (p : string)
    (ff ff' : option (pyobj + Tags.MusaFileFormat))
    (st st' : Tags.class_state) (f : Tags.Facade) :
  Tags.__init__ (env := env) p ff st = (Ok f, st') →
  Tags.isfile (Env := env') p = false →
  Tags.__init__ (env := env') p ff' st' = (Ok f, st')
  ∧ Tags.TagParserInstance__init__ (env := env') p ff'
    = Raise (TagError ("No such file: " +:+ p)).
Proof.
  intros Hinit Hgone.
  destruct (tags_init_cases (env := env) _ _ _ _ _ Hinit) as [-> Hcases].
  assert (is_Some (Tags.instances st' !! p)) as [r Hr].
  { destruct Hcases as [[Hsome ->]|(_ & inst & _ & ->)]; [done|].
    simpl. rewrite lookup_insert_eq. by eexists. }
  split; [by eapply tags_init_cached|].
  unfold Tags.TagParserInstance__init__. by rewrite Hgone.
Qed.

Lemma tags_cache_never_evicts_witness :
  Tags.instances
    (Tags.construct_all (env := Demo.env) [("/music/a.mp3", None)]
       (Tags.__init__ (env := Demo.env) "a.mp3" None Tags.initial).2) !! "a.mp3"
  = Some 0.
Proof.
  refine (proj1 (tags_cache_never_evicts (env := Demo.env)
                   [("/music/a.mp3", None)]
                   (Tags.__init__ (env := Demo.env) "a.mp3" None Tags.initial).2
                   "a.mp3" 0
                   (Tags.mkInstance "/music/a.mp3" (Demo.mp3_format "a.mp3")
                      (TagParser.mk "/music/a.mp3" [] false [] false None))
                   _ _)).
  - by vm_compute.
  - reflexivity.
Defined.

Lemma tags_cache_hit_skips_validation_witness :
  Tags.__init__ (env := Demo.gone_env) "a.mp3" None
    (Tags.__init__ (env := Demo.env) "a.mp3" None Tags.initial).2
  = Tags.__init__ (env := Demo.env) "a.mp3" None Tags.initial.
Proof.
  exact (proj1 (tags_cache_hit_skips_validation Demo.env Demo.gone_env
                  "a.mp3" None None Tags.initial _ _ eq_refl eq_refl)).
Defined.

(** ** [TagParserInstance.remove_tags] and [update_tags] *)

Lemma only_deleted_refl (s : TagParser.St) : only_deleted s s.
Proof. by repeat split. Qed.

Lemma only_deleted_trans (s1 s2 s3 : TagParser.St) :
  only_deleted s1 s2 → only_deleted s2 s3 → only_deleted s1 s3.
Proof.
  intros (Hp & Hm & He) (Hp' & Hm' & He'). repeat split.
  - by rewrite Hp'.
  - by rewrite Hm'.
  - intros f v Hf. by apply He, He'.
Qed.

Lemma maintains_bind {A B} (R : TagParser.St → TagParser.St → Prop)
    (m : TagParser.M A) (k : A → TagParser.M B) :
  (∀ s1 s2 s3, R s1 s2 → R s2 s3 → R s1 s3) →
  maintains R m → (∀ a, maintains R (k a)) →
  maintains R (TagParser.bind m k).
Proof.
  intros Htrans Hm Hk s. unfold TagParser.bind.
  specialize (Hm s). destruct (m s) as [[a|e] s1]; simpl in Hm; [|done].
  eapply Htrans; [exact Hm|apply Hk].
Qed.

Lemma maintains_for_each {A} (R : TagParser.St → TagParser.St → Prop)
    (l : list A) (body : A → TagParser.M unit) :
  (∀ s, R s s) → (∀ s1 s2 s3, R s1 s2 → R s2 s3 → R s1 s3) →
  (∀ x, maintains R (body x)) →
  maintains R (TagParser.for_each l body).
Proof.
  intros Hrefl Htrans Hbody. induction l as [|x l IH]; simpl.
  - intros s. apply Hrefl.
  - apply maintains_bind; [done|apply Hbody|]. by intros _.
Qed.

Lemma quietly_deleted_refl (s : TagParser.St) : quietly_deleted s s.
Proof. split; [apply only_deleted_refl|done]. Qed.

Lemma quietly_deleted_trans (s1 s2 s3 : TagParser.St) :
  quietly_deleted s1 s2 → quietly_deleted s2 s3 → quietly_deleted s1 s3.
Proof.
  intros [H12 Hio12] [H23 Hio23]. split.
  - by eapply only_deleted_trans.
  - by rewrite Hio23.
Qed.

Lemma delitem_quietly_deletes (item : string) :
  maintains quietly_deleted (TagParser.__delitem__ item).
Proof.
  intros s.
  destruct (TagParser.tag2fields_loop (TagParser.tag_map s.1) item)
    as [fs|] eqn:Hfs.
  - rewrite (delitem_unfold item fs s Hfs), delitem_loop_closed_form; simpl.
    split; [|done]. repeat split. simpl. intros f v.
    rewrite entry_get_foldl_del. by case_decide.
  - replace (TagParser.__delitem__ item s)
      with (Raise (A := unit) (TypeError "'NoneType' object is not iterable"), s).
    + apply quietly_deleted_refl.
    + unfold TagParser.__delitem__, TagParser.__tag2fields__,
        TagParser.bind at 1 2, TagParser.bind at 1, TagParser.gets,
        TagParser.ret; simpl.
      by rewrite Hfs.
Qed.

Lemma remove_tags_body_quietly_deletes {constants : TagConstants} (tag : string) :
  maintains quietly_deleted (Tags.remove_tags_body tag).
Proof.
  intros s. unfold Tags.remove_tags_body, TagParser.bind.
  rewrite keys_closed_form. case_decide.
  - apply quietly_deleted_refl.
  - apply delitem_quietly_deletes.
Qed.

Lemma remove_tags_loop_nothing_listed {constants : TagConstants}
    (tags : list string) (s : TagParser.St) (ks : list string) :
  TagParser.keys s = (Ok ks, s) →
  (∀ tag, tag ∈ tags → tag ∉ ks) →
  TagParser.for_each tags Tags.remove_tags_body s = (Ok tt, s).
Proof.
  intros Hks. induction tags as [|tag tags IH]; intros Hnone; simpl; [done|].
  unfold TagParser.bind at 1, Tags.remove_tags_body, TagParser.bind at 1.
  rewrite Hks. rewrite decide_True by (apply Hnone; by left).
  simpl. apply IH. intros t Ht. apply Hnone. by right.
Qed.

Lemma save_effects {codec : TagParser.Codec} (s : TagParser.St) :
  (TagParser.save s).2.1 = s.1
  ∧ saves (TagParser.save s).2.2
    = (saves s.2 + (if TagParser.modified s.1 then 1 else 0))%nat.
Proof.
  unfold TagParser.save, TagParser.bind, TagParser.gets, TagParser.emit; simpl.
  destruct (TagParser.modified s.1); simpl.
  - destruct (TagParser.entry_save _ _); simpl;
      (split; [done|]); unfold saves;
      rewrite List.filter_app, length_app; simpl; lia.
  - split; [done|lia].
Qed.

Lemma remove_tags_unfold {constants : TagConstants} {codec : TagParser.Codec}
    (tags : list string) (s : TagParser.St) :
  Tags.remove_tags tags s
  = match TagParser.for_each tags Tags.remove_tags_body s with
    | (Ok _, s1) =>
        if TagParser.modified s1.1 then TagParser.save s1 else (Ok tt, s1)
    | (Raise e, s1) => (Raise e, s1)
    end.
Proof.
  unfold Tags.remove_tags, TagParser.bind at 1.
  destruct (TagParser.for_each tags Tags.remove_tags_body s) as [[[]|e] s1];
    [|done].
  unfold TagParser.bind, TagParser.gets; simpl.
  by destruct (TagParser.modified s1.1).
Qed.

(** X20. [remove_tags] only deletes and saves at most once.  However it
    ends, the file and tag map are the same and every native field still
    in the entry was there before with the same content; at most one
    native save is performed.  When it returns, a save was performed
    exactly if the modified flag is then true.  When the flag was false
    and none of the listed tags is among [keys()], nothing happens at
    all. *)
Theorem remove_tags_only_deletes_saves_once {constants : TagConstants}
    {codec : TagParser.Codec} (tags : list string) (s : TagParser.St) :
  only_deleted s (Tags.remove_tags tags s).2
  ∧ (saves (Tags.remove_tags tags s).2.2 ≤ S (saves s.2))%nat
  ∧ ((Tags.remove_tags tags s).1 = Ok tt →
     saves (Tags.remove_tags tags s).2.2
     = (saves s.2
        + (if TagParser.modified (Tags.remove_tags tags s).2.1 then 1 else 0))%nat)
  ∧ (TagParser.modified s.1 = false →
     (∀ ks tag, (TagParser.keys s).1 = Ok ks → tag ∈ tags → tag ∉ ks) →
     Tags.remove_tags tags s = (Ok tt, s)).
Proof.
  pose proof (maintains_for_each quietly_deleted tags Tags.remove_tags_body
                quietly_deleted_refl quietly_deleted_trans
                remove_tags_body_quietly_deletes s) as [Hdel Hio].
  rewrite (remove_tags_unfold tags s).
  destruct (TagParser.for_each tags Tags.remove_tags_body s) as [[[]|e] s1] eqn:Hloop;
    simpl in Hdel, Hio.
  - destruct (save_effects s1) as [Hsame Hsaves].
    destruct (TagParser.modified s1.1) eqn:Hm.
    + split; [|split; [|split]].
      * destruct Hdel as (Hp & Hm' & He). repeat split; by rewrite Hsame.
      * rewrite Hsaves, Hio. lia.
      * intros _. by rewrite Hsame, Hm, Hsaves, Hio.
      * intros Hclean Hnone.
        rewrite (remove_tags_loop_nothing_listed tags s _ (keys_closed_form s))
          in Hloop.
        -- injection Hloop as <-. by rewrite Hclean in Hm.
        -- intros tag Htag. eapply Hnone; [|done]. by rewrite keys_closed_form.
    + simpl. split; [done|]. split; [rewrite Hio; lia|]. split.
      * intros _. rewrite Hm, Hio. lia.
      * intros Hclean Hnone.
        rewrite (remove_tags_loop_nothing_listed tags s _ (keys_closed_form s))
          in Hloop.
        -- by injection Hloop as <-.
        -- intros tag Htag. eapply Hnone; [|done]. by rewrite keys_closed_form.
  - simpl. split; [done|]. split; [rewrite Hio; lia|]. split; [done|].
    intros Hclean Hnone.
    rewrite (remove_tags_loop_nothing_listed tags s _ (keys_closed_form s))
      in Hloop; [done|].
    intros tag Htag. eapply Hnone; [|done]. by rewrite keys_closed_form.
Qed.

(** X21. [TagParserInstance.update_tags] saves after the sets, and only
    if they left the parser modified: on data that is not a dictionary it
    raises [TagError] and does nothing; on a dictionary whose pairs are
    all set successfully, ending in [s'], it is [save()] run from [s']
    when the modified flag of [s'] is true, and nothing more otherwise. *)
Theorem instance_update_tags_saves_if_modified {codec : TagParser.Codec}
    (data : pyobj) (s : TagParser.St) :
  match data with
  | PDict kvs =>
      ∀ s', set_each kvs s s' →
            Tags.update_tags data s
            = if TagParser.modified s'.1 then TagParser.save s' else (Ok tt, s')
  | _ =>
      Tags.update_tags data s
      = (Raise (TagError "Updated tags must be a dictionary instance"), s)
  end.
Proof.
  destruct data as [| | | | |kvs|]; try reflexivity.
  intros s' Hall. apply for_each_set_each in Hall.
  unfold Tags.update_tags, TagParser.bind at 1, TagParser.update_tags,
    TagParser.bind at 1.
  rewrite Hall. unfold TagParser.gets; simpl.
  by destruct (TagParser.modified s'.1).
Qed.

(** ** [ntfs_rename] *)

Lemma bind_singletons {A} (f : A → list A) (l : list A) :
  (∀ x, x ∈ l → f x = [x]) → l ≫= f = l.
Proof.
  induction l as [|x l IH]; intros Hf; [done|].
  rewrite bind_cons, (Hf x) by (by left). simpl. f_equal.
  apply IH. intros y Hy. apply Hf. by right.
Qed.

Lemma substitute_with_cons (c : ascii) (r : list ascii)
    (items : list (ascii * list ascii)) (a : ascii) :
  Sync.substitute_with ((c, r) :: items) a
  = if decide (c = a) then r else Sync.substitute_with items a.
Proof.
  unfold Sync.substitute_with; simpl.
  destruct (decide (c = a)) as [->|Hne].
  - by rewrite bool_decide_eq_true_2.
  - by rewrite bool_decide_eq_false_2.
Qed.

Lemma substitute_with_absent (items : list (ascii * list ascii)) (a : ascii) :
  a ∉ items.*1 → Sync.substitute_with items a = [a].
Proof.
  induction items as [|[c r] items IH]; [done|].
  rewrite fmap_cons, not_elem_of_cons. intros [Hne Hin].
  rewrite substitute_with_cons, decide_False by done. by apply IH.
Qed.

Lemma substitute_with_present (items : list (ascii * list ascii))
    (c : ascii) (r : list ascii) :
  NoDup items.*1 → (c, r) ∈ items → Sync.substitute_with items c = r.
Proof.
  induction items as [|[c' r'] items IH]; [by intros _ ?%elem_of_nil|].
  rewrite fmap_cons, NoDup_cons. intros [Hfresh Hnd] Hin.
  rewrite substitute_with_cons.
  apply elem_of_cons in Hin as [[= <- <-]|Hin].
  - by rewrite decide_True.
  - rewrite decide_False; [by apply IH|].
    intros <-. apply Hfresh. apply list_elem_of_fmap. by exists (c', r).
Qed.

(** No replacement text contains a replaced character. *)
Lemma fold_replace_is_substitution (items : list (ascii * list ascii))
    (path : list ascii) :
  NoDup items.*1 →
  Forall (λ cr, Forall (λ x, x ∉ items.*1) cr.2) items →
  fold_left (λ path cr, Sync.replace cr.1 cr.2 path) items path
  = path ≫= Sync.substitute_with items.
Proof.
  revert path. induction items as [|[c r] items IH]; intros path Hnd Hfree.
  - simpl. symmetry. by apply bind_singletons.
  - rewrite fmap_cons in Hnd, Hfree. apply NoDup_cons in Hnd as [Hfresh Hnd].
    apply Forall_cons in Hfree as [Hr Hfree]. simpl in Hr.
    simpl. rewrite IH; [|done|].
    + induction path as [|a path IHp]; [done|].
      rewrite (bind_cons _ a path), substitute_with_cons.
      change (Sync.replace c r (a :: path))
        with (if decide (a = c) then r ++ Sync.replace c r path
              else a :: Sync.replace c r path).
      destruct (decide (a = c)) as [->|Hne].
      * rewrite decide_True by done. rewrite bind_app, IHp. f_equal.
        apply bind_singletons. intros x Hx. apply substitute_with_absent.
        rewrite Forall_forall in Hr.
        specialize (Hr x Hx). by apply not_elem_of_cons in Hr as [_ ?].
      * rewrite decide_False by done.
        by rewrite bind_cons, IHp.
    + eapply Forall_impl; [exact Hfree|]. intros [c' r'] Hall; simpl in *.
      eapply Forall_impl; [exact Hall|]. intros x Hx.
      by apply not_elem_of_cons in Hx as [_ ?].
Qed.

Lemma replace_map_keys_distinct : NoDup Sync.REPLACE_MAP.*1.
Proof. apply (bool_decide_unpack _). by vm_compute. Qed.

Lemma replace_map_texts_clean :
  Forall (λ cr, Forall (λ x, x ∉ Sync.REPLACE_MAP.*1) cr.2) Sync.REPLACE_MAP.
Proof. apply (bool_decide_unpack _). by vm_compute. Qed.

Lemma substitute_with_permutation (items : list (ascii * list ascii)) (a : ascii) :
  items ≡ₚ Sync.REPLACE_MAP →
  Sync.substitute_with items a = Sync.substitute a.
Proof.
  intros Hperm. unfold Sync.substitute.
  assert (NoDup items.*1) as Hnd
    by (rewrite Hperm; apply replace_map_keys_distinct).
  destruct (decide (a ∈ Sync.REPLACE_MAP.*1)) as [Hin|Hout].
  - apply list_elem_of_fmap in Hin as ([c r] & -> & Hin); simpl.
    rewrite (substitute_with_present Sync.REPLACE_MAP c r
               replace_map_keys_distinct Hin).
    apply substitute_with_present; [done|]. by rewrite Hperm.
  - rewrite (substitute_with_absent Sync.REPLACE_MAP a Hout).
    apply substitute_with_absent. by rewrite Hperm.
Qed.

Lemma fold_replace_any_order (items : list (ascii * list ascii))
    (path : list ascii) :
  items ≡ₚ Sync.REPLACE_MAP →
  fold_left (λ path cr, Sync.replace cr.1 cr.2 path) items path
  = path ≫= Sync.substitute.
Proof.
  intros Hperm. rewrite fold_replace_is_substitution.
  - apply list_bind_ext; [|done]. intros a. by apply substitute_with_permutation.
  - rewrite Hperm. apply replace_map_keys_distinct.
  - rewrite Hperm. eapply Forall_impl; [apply replace_map_texts_clean|].
    intros cr Hall. eapply Forall_impl; [exact Hall|].
    intros x Hx. by rewrite Hperm.
Qed.

(** X22. The result of [ntfs_rename] does not depend on the order in
    which the dictionary [REPLACE_MAP] yields its entries: in any order,
    the chain of [replace] calls is the single pass that substitutes each
    character once. *)
Theorem ntfs_rename_any_dictionary_order (sep : ascii)
    (items : list (ascii * list ascii)) (path : list ascii) :
  items ≡ₚ Sync.REPLACE_MAP →
  Sync.ntfs_rename sep items path = Sync.ntfs_rename sep Sync.REPLACE_MAP path
  ∧ Sync.ntfs_rename sep items path
    = Sync.join sep (Sync.rstrip (Sync.str ". ")
                       <$> Sync.split sep (path ≫= Sync.substitute)).
Proof.
  intros Hperm. unfold Sync.ntfs_rename.
  by rewrite (fold_replace_any_order items path Hperm),
    (fold_replace_any_order Sync.REPLACE_MAP path).
Qed.

Lemma ntfs_rename_any_dictionary_order_witness :
  Sync.ntfs_rename "/"%char (reverse Sync.REPLACE_MAP) (Sync.str "a:b?/c. ")
  = Sync.ntfs_rename "/"%char Sync.REPLACE_MAP (Sync.str "a:b?/c. ").
Proof.
  exact (proj1 (ntfs_rename_any_dictionary_order "/"%char
                  (reverse Sync.REPLACE_MAP) (Sync.str "a:b?/c. ")
                  (reverse_Permutation _))).
Defined.

Lemma substitute_clean (a x : ascii) :
  x ∈ Sync.substitute a → x ∉ Sync.replaced_chars.
Proof.
  unfold Sync.substitute, Sync.replaced_chars.
  destruct (decide (a ∈ Sync.REPLACE_MAP.*1)) as [Hin|Hout].
  - apply list_elem_of_fmap in Hin as ([c r] & -> & Hin); simpl.
    rewrite (substitute_with_present Sync.REPLACE_MAP c r
               replace_map_keys_distinct Hin).
    pose proof replace_map_texts_clean as Hclean.
    rewrite Forall_forall in Hclean. specialize (Hclean _ Hin); simpl in Hclean.
    rewrite Forall_forall in Hclean. apply Hclean.
  - rewrite (substitute_with_absent _ _ Hout).
    by intros ->%list_elem_of_singleton.
Qed.

Lemma substitute_other (a : ascii) :
  a ∉ Sync.replaced_chars → Sync.substitute a = [a].
Proof. apply substitute_with_absent. Qed.

Lemma split_cons (sep a : ascii) (path : list ascii) :
  Sync.split sep (a :: path)
  = if decide (a = sep) then [] :: Sync.split sep path
    else match Sync.split sep path with
         | x :: xs => (a :: x) :: xs
         | [] => [[a]]
         end.
Proof. done. Qed.

Lemma split_not_nil (sep : ascii) (path : list ascii) : Sync.split sep path ≠ [].
Proof.
  induction path as [|a path IH]; [done|].
  rewrite split_cons. case_decide; [done|].
  by destruct (Sync.split sep path).
Qed.

Lemma elem_of_split (sep : ascii) (path part : list ascii) (x : ascii) :
  part ∈ Sync.split sep path → x ∈ part → x ∈ path ∧ x ≠ sep.
Proof.
  revert part. induction path as [|a path IH]; intros part.
  - simpl. intros ->%list_elem_of_singleton. by intros ?%elem_of_nil.
  - rewrite split_cons. case_decide as Ha.
    + intros [->|Hin]%elem_of_cons; [by intros ?%elem_of_nil|].
      intros Hx. destruct (IH part Hin Hx). split; [by right|done].
    + destruct (Sync.split sep path) as [|y ys] eqn:Hsplit;
        [by apply split_not_nil in Hsplit|].
      intros [->|Hin]%elem_of_cons.
      * intros [->|Hx]%elem_of_cons; [split; [by left|done]|].
        destruct (IH y) as [? ?]; [by left|done|]. split; [by right|done].
      * intros Hx. destruct (IH part) as [? ?]; [by right|done|].
        split; [by right|done].
Qed.

Lemma join_cons_cons (sep : ascii) (x y : list ascii) (parts : list (list ascii)) :
  Sync.join sep (x :: y :: parts) = x ++ sep :: Sync.join sep (y :: parts).
Proof. done. Qed.

Lemma join_split (sep : ascii) (path : list ascii) :
  Sync.join sep (Sync.split sep path) = path.
Proof.
  induction path as [|a path IH]; [done|].
  rewrite split_cons.
  destruct (Sync.split sep path) as [|y ys] eqn:Hsplit;
    [by apply split_not_nil in Hsplit|].
  case_decide as Ha.
  - subst a. by rewrite join_cons_cons, IH.
  - destruct ys as [|z zs].
    + simpl in *. by rewrite IH.
    + rewrite join_cons_cons. rewrite join_cons_cons in IH.
      rewrite <- app_comm_cons. by rewrite IH.
Qed.

Lemma split_no_sep (sep : ascii) (x : list ascii) :
  sep ∉ x → Sync.split sep x = [x].
Proof.
  induction x as [|a x IH]; [done|].
  intros [Hne Hx]%not_elem_of_cons.
  rewrite split_cons, decide_False by done. by rewrite IH.
Qed.

Lemma split_app_sep (sep : ascii) (x path : list ascii) :
  sep ∉ x → Sync.split sep (x ++ sep :: path) = x :: Sync.split sep path.
Proof.
  induction x as [|a x IH].
  - intros _. simpl. by rewrite decide_True.
  - intros [Hne Hx]%not_elem_of_cons.
    rewrite <- app_comm_cons, split_cons, decide_False by done.
    by rewrite IH.
Qed.

Lemma split_join (sep : ascii) (parts : list (list ascii)) :
  parts ≠ [] → Forall (λ part, sep ∉ part) parts →
  Sync.split sep (Sync.join sep parts) = parts.
Proof.
  induction parts as [|x parts IH]; [done|]. intros _ Hfree.
  apply Forall_cons in Hfree as [Hx Hfree].
  destruct parts as [|y parts].
  - simpl. by apply split_no_sep.
  - rewrite join_cons_cons, split_app_sep by done. by rewrite IH.
Qed.

Lemma elem_of_join (sep : ascii) (parts : list (list ascii)) (x : ascii) :
  x ∈ Sync.join sep parts → x = sep ∨ ∃ part, part ∈ parts ∧ x ∈ part.
Proof.
  induction parts as [|y parts IH]; [by intros ?%elem_of_nil|].
  destruct parts as [|z parts].
  - simpl. intros Hx. right. exists y. split; [by left|done].
  - rewrite join_cons_cons, elem_of_app, elem_of_cons.
    intros [Hx|[->|Hx]].
    + right. exists y. split; [by left|done].
    + by left.
    + destruct (IH Hx) as [->|(part & Hpart & Hin)]; [by left|].
      right. exists part. split; [by right|done].
Qed.

Lemma rstrip_cons (chars : list ascii) (a : ascii) (x : list ascii) :
  Sync.rstrip chars (a :: x)
  = match Sync.rstrip chars x with
    | [] => if decide (a ∈ chars) then [] else [a]
    | y => a :: y
    end.
Proof. done. Qed.

Lemma elem_of_rstrip (chars x : list ascii) (b : ascii) :
  b ∈ Sync.rstrip chars x → b ∈ x.
Proof.
  induction x as [|a x IH]; [done|].
  rewrite rstrip_cons. destruct (Sync.rstrip chars x) as [|y ys].
  - case_decide; [by intros ?%elem_of_nil|].
    intros ->%list_elem_of_singleton. by left.
  - intros [->|Hb]%elem_of_cons; [by left|]. right. by apply IH.
Qed.

Lemma rstrip_last (chars x : list ascii) (b : ascii) :
  last (Sync.rstrip chars x) = Some b → b ∉ chars.
Proof.
  induction x as [|a x IH]; [done|].
  rewrite rstrip_cons. destruct (Sync.rstrip chars x) as [|y ys].
  - case_decide; [done|]. by intros [= <-].
  - rewrite last_cons_cons. apply IH.
Qed.

Lemma rstrip_fixed (chars x : list ascii) :
  (∀ b, last x = Some b → b ∉ chars) → Sync.rstrip chars x = x.
Proof.
  induction x as [|a x IH]; [done|]. intros Hlast.
  rewrite rstrip_cons. destruct x as [|a' x].
  - simpl. rewrite decide_False; [done|]. by apply Hlast.
  - rewrite IH by (intros b Hb; apply Hlast; by rewrite last_cons_cons).
    done.
Qed.

(** The components of the renamed path are the stripped components of
    the substituted path. *)
Lemma split_rename (sep : ascii) (path : list ascii) :
  Sync.split sep (Sync.join sep (Sync.rstrip (Sync.str ". ")
                                   <$> Sync.split sep path))
  = Sync.rstrip (Sync.str ". ") <$> Sync.split sep path.
Proof.
  apply split_join.
  - intros Hnil%fmap_nil_inv. by apply split_not_nil in Hnil.
  - apply Forall_fmap, Forall_forall. intros part Hpart; simpl.
    intros Hsep%elem_of_rstrip. by destruct (elem_of_split _ _ _ _ Hpart Hsep).
Qed.

Lemma rename_fixed (sep : ascii) (path : list ascii) :
  (∀ x, x ∈ path → x ∉ Sync.replaced_chars) →
  Forall Sync.ends_well (Sync.split sep path) →
  Sync.join sep (Sync.rstrip (Sync.str ". ")
                   <$> Sync.split sep (path ≫= Sync.substitute)) = path.
Proof.
  intros Hclean Hends.
  rewrite (bind_singletons Sync.substitute path)
    by (intros x Hx; by apply substitute_other, Hclean).
  rewrite <- (join_split sep path) at 2. f_equal.
  rewrite <- (list_fmap_id (Sync.split sep path)) at 2.
  apply Forall_fmap_ext_1. eapply Forall_impl; [exact Hends|].
  intros part Hpart. by apply rstrip_fixed.
Qed.

Lemma rename_clean (sep : ascii) (path : list ascii) (x : ascii) :
  sep ∉ Sync.replaced_chars →
  x ∈ Sync.join sep (Sync.rstrip (Sync.str ". ")
                       <$> Sync.split sep (path ≫= Sync.substitute)) →
  x ∉ Sync.replaced_chars.
Proof.
  intros Hsep [->|(part & Hpart & Hx)]%elem_of_join; [done|].
  apply list_elem_of_fmap in Hpart as (part0 & -> & Hpart0).
  apply elem_of_rstrip in Hx.
  destruct (elem_of_split _ _ _ _ Hpart0 Hx) as [Hin _].
  apply list_elem_of_bind in Hin as (a & Hxa & _).
  by eapply substitute_clean.
Qed.

Lemma rename_ends_well (sep : ascii) (path : list ascii) :
  Forall Sync.ends_well
    (Sync.rstrip (Sync.str ". ") <$> Sync.split sep path).
Proof.
  apply Forall_fmap, Forall_forall. intros part _ b. apply rstrip_last.
Qed.

(** X23. The renamed path has none of the characters [REPLACE_MAP]
    replaces, whatever the order of the dictionary, provided the path
    separator is not one of them. *)
Theorem ntfs_rename_removes_replaced_chars (sep : ascii)
    (items : list (ascii * list ascii)) (path : list ascii) (x : ascii) :
  items ≡ₚ Sync.REPLACE_MAP → sep ∉ Sync.replaced_chars →
  x ∈ Sync.ntfs_rename sep items path → x ∉ Sync.replaced_chars.
Proof.
  intros Hperm Hsep. unfold Sync.ntfs_rename.
  rewrite (fold_replace_any_order items path Hperm). by apply rename_clean.
Qed.

(** X24. Split at the separator, the renamed path has as many components
    as the path after substitution, each the stripped component, and none
    of them ends with a dot or a space. *)
Theorem ntfs_rename_components_end_well (sep : ascii)
    (items : list (ascii * list ascii)) (path : list ascii) :
  items ≡ₚ Sync.REPLACE_MAP →
  Sync.split sep (Sync.ntfs_rename sep items path)
  = Sync.rstrip (Sync.str ". ") <$> Sync.split sep (path ≫= Sync.substitute)
  ∧ Forall Sync.ends_well (Sync.split sep (Sync.ntfs_rename sep items path)).
Proof.
  intros Hperm. unfold Sync.ntfs_rename.
  rewrite (fold_replace_any_order items path Hperm), split_rename.
  split; [done|apply rename_ends_well].
Qed.

(** X25. A path that is already acceptable is left alone: when it has no
    replaced character and none of its components ends with a dot or a
    space, [ntfs_rename] returns it unchanged. *)
Theorem ntfs_rename_fixes_clean_paths (sep : ascii)
    (items : list (ascii * list ascii)) (path : list ascii) :
  items ≡ₚ Sync.REPLACE_MAP →
  (∀ x, x ∈ path → x ∉ Sync.replaced_chars) →
  Forall Sync.ends_well (Sync.split sep path) →
  Sync.ntfs_rename sep items path = path.
Proof.
  intros Hperm Hclean Hends. unfold Sync.ntfs_rename.
  rewrite (fold_replace_any_order items path Hperm). by apply rename_fixed.
Qed.

(** X26. [ntfs_rename] is idempotent, whatever the order of the
    dictionary in either call, provided the path separator is not a
    replaced character. *)
Theorem ntfs_rename_idempotent (sep : ascii)
    (items items' : list (ascii * list ascii)) (path : list ascii) :
  items ≡ₚ Sync.REPLACE_MAP → items' ≡ₚ Sync.REPLACE_MAP →
  sep ∉ Sync.replaced_chars →
  Sync.ntfs_rename sep items' (Sync.ntfs_rename sep items path)
  = Sync.ntfs_rename sep items path.
Proof.
  intros Hperm Hperm' Hsep. unfold Sync.ntfs_rename.
  rewrite (fold_replace_any_order items path Hperm),
    (fold_replace_any_order items' _ Hperm').
  apply rename_fixed.
  - intros x. by apply rename_clean.
  - rewrite split_rename. apply rename_ends_well.
Qed.

Lemma slash_not_replaced : "/"%char ∉ Sync.replaced_chars.
Proof. apply (bool_decide_unpack _). by vm_compute. Qed.

Lemma ntfs_rename_removes_replaced_chars_witness :
  "b"%char ∉ Sync.replaced_chars.
Proof.
  refine (ntfs_rename_removes_replaced_chars "/"%char Sync.REPLACE_MAP
            (Sync.str "a:b?/c. ") "b"%char _ slash_not_replaced _).
  - reflexivity.
  - apply (bool_decide_unpack _). by vm_compute.
Defined.

Lemma ntfs_rename_components_end_well_witness :
  Sync.split "/"%char
    (Sync.ntfs_rename "/"%char Sync.REPLACE_MAP (Sync.str "a:b?/c. "))
  = [Sync.str "a - b"; Sync.str "c"].
Proof.
  refine (proj1 (ntfs_rename_components_end_well "/"%char Sync.REPLACE_MAP
                   (Sync.str "a:b?/c. ") _)).
  reflexivity.
Defined.

Lemma ntfs_rename_fixes_clean_paths_witness :
  Sync.ntfs_rename "/"%char Sync.REPLACE_MAP (Sync.str "/music/a b.mp3")
  = Sync.str "/music/a b.mp3".
Proof.
  refine (ntfs_rename_fixes_clean_paths "/"%char Sync.REPLACE_MAP
            (Sync.str "/music/a b.mp3") _ _ _).
  - reflexivity.
  - apply Forall_forall. apply (bool_decide_unpack _). by vm_compute.
  - repeat constructor; intros b [= <-];
      apply (bool_decide_unpack _); by vm_compute.
Defined.

Lemma ntfs_rename_idempotent_witness :
  Sync.ntfs_rename "/"%char Sync.REPLACE_MAP
    (Sync.ntfs_rename "/"%char Sync.REPLACE_MAP (Sync.str "a:b?/c. "))
  = Sync.ntfs_rename "/"%char Sync.REPLACE_MAP (Sync.str "a:b?/c. ").
Proof.
  refine (ntfs_rename_idempotent "/"%char Sync.REPLACE_MAP Sync.REPLACE_MAP
            (Sync.str "a:b?/c. ") _ _ slash_not_replaced); reflexivity.
Defined.

(** X19. A construction that raises caches nothing, so the next
    construction of the same path runs the instance constructor again:
    if that one succeeds, in whatever environment, [Tags(p)] succeeds and
    caches the new instance as a new object. *)
Theorem tags_failed_construction_is_retried (env env' : Tags.Env) (p : string)
    (ff ff' : option (pyobj + Tags.MusaFileFormat))
    (st st' : Tags.class_state) (e : exn) (inst : Tags.TagParserInstance) :
  Tags.__init__ (env := env) p ff st = (Raise e, st') →
  Tags.TagParserInstance__init__ (env := env') p ff' = Ok inst →
  st' = st
  ∧ Tags.TagParserInstance__init__ (env := env) p ff = Raise e
  ∧ Tags.__init__ (env := env') p ff' st'
    = (Ok (Tags.mkFacade p),
       Tags.mkClass (<[p := length (Tags.heap st)]> (Tags.instances st))
                    (Tags.heap st ++ [inst])).
Proof.
  unfold Tags.__init__.
  destruct (Tags.instances st !! p) as [r|] eqn:Hp; [done|].
  destruct (Tags.TagParserInstance__init__ (env := env) p ff) as [?|e'];
    [done|].
  intros [= <- <-] Hok. by rewrite Hp, Hok.
Qed.

Lemma tags_failed_construction_is_retried_witness :
  Tags.__init__ (env := Demo.env) "a.mp3" None Tags.initial
  = (Ok (Tags.mkFacade "a.mp3"),
     Tags.mkClass (<["a.mp3" := 0]> ∅)
       [Tags.mkInstance "/music/a.mp3" (Demo.mp3_format "a.mp3")
          (TagParser.mk "/music/a.mp3" [] false [] false None)]).
Proof.
  exact (proj2 (proj2 (tags_failed_construction_is_retried Demo.gone_env Demo.env
                         "a.mp3" None None Tags.initial Tags.initial
                         (TagError "No such file: a.mp3") _ eq_refl eq_refl))).
Defined.
